(** * Fischer-Koch S surface plotter: a shallow embedding of the sampling,
      smoothing, extraction and coordinate-mapping pipeline

    The program (fischer_koch_s.py and its save-to-file twin, whose
    [fischer_koch_s] and [generate_surface] are the same text) samples the
    implicit function on a regular lattice with numpy, smooths the samples
    with scipy's [ndimage.gaussian_filter], extracts a triangle mesh with
    scikit-image's [measure.marching_cubes] and shifts the vertices by the
    lower bound.

    Modelling choices, fixed for the whole file:
    - Python floats are modelled as real numbers ([R]): rounding is not
      modelled, so every statement below is about the exact arithmetic that
      the floating-point code approximates.
    - [print] is the only effect of [generate_surface]; it is modelled by
      state passing over the console (the list of printed lines), and Python
      exceptions by a [result] type.
    - The library functions the program calls are modelled by what they
      compute: [numpy.linspace], [numpy.meshgrid] and the elementwise array
      operations, [scipy.ndimage.gaussian_filter] (separable, truncate = 4.0,
      mode = reflect) and the argument checks of
      [skimage.measure.marching_cubes].  The extraction proper is compiled
      library code outside the repository; it is modelled from section 4.4
      of the specification, over a triangulation table taken as a
      parameter, and differs from the library in how it numbers vertices
      and in how it classifies a sample equal to the level. *)

From Stdlib Require Import String Ascii DecimalString.
From Stdlib Require Import Reals Lra Lia List ZArith Bool Arith.
Import ListNotations.

Open Scope R_scope.

(* ================================================================== *)
(** ** Python: exceptions, console output *)
(* ================================================================== *)

Module Py.

(** The exception classes that can escape the modelled code, each with its
    message. *)
Inductive exn : Type :=
| IndexError (msg : string)
| ValueError (msg : string)
| RuntimeError (msg : string).

Inductive result (A : Type) : Type :=
| Ok (a : A)
| Raise (e : exn).
Arguments Ok {A} a.
Arguments Raise {A} e.

(** The console: the lines printed so far, oldest first. *)
Definition Console := list string.

(** A computation reads the console, appends to it, and returns or raises. *)
Definition M (A : Type) : Type := Console -> Console * result A.

Definition ret {A} (a : A) : M A := fun con => (con, Ok a).

Definition raise {A} (e : exn) : M A := fun con => (con, Raise e).

Definition bind {A B} (c : M A) (k : A -> M B) : M B :=
  fun con =>
    match c con with
    | (con', Ok a) => k a con'
    | (con', Raise e) => (con', Raise e)
    end.

Definition print (line : string) : M unit :=
  fun con => (con ++ [line], Ok tt).

Definition lift {A} (r : result A) : M A := fun con => (con, r).

(** [str(e)] of an exception: its message. *)
Definition message (e : exn) : string :=
  match e with
  | IndexError m | ValueError m | RuntimeError m => m
  end.

(** [str(n)] of a natural number and of an integer. *)
Definition str_of_nat (n : nat) : string :=
  NilZero.string_of_uint (Nat.to_uint n).

Definition str_of_Z (z : Z) : string :=
  NilZero.string_of_int (Z.to_int z).

End Py.

Import Py.

Notation "x <- c ;; k" := (Py.bind c (fun x => k))
  (at level 61, c at next level, right associativity).
Notation "c ;;; k" := (Py.bind c (fun _ => k))
  (at level 61, right associativity).

(* ================================================================== *)
(** ** numpy: one-dimensional and three-dimensional arrays *)
(* ================================================================== *)

Module Np.

(** A three-dimensional array, indexed [v[i][j][k]]. *)
Definition Volume := list (list (list R)).

Definition vol_get (v : Volume) (i j k : nat) : R :=
  nth k (nth j (nth i v []) []) 0.

(** [v.shape] of a rectangular array. *)
Definition shape (v : Volume) : nat * nat * nat :=
  (length v, length (nth 0%nat v []), length (nth 0%nat (nth 0%nat v []) [])).

(** [v.size]: the number of entries. *)
Definition size (v : Volume) : nat := length (concat (concat v)).

(** Rectangular with the given extents. *)
Definition has_shape (n0 n1 n2 : nat) (v : Volume) : Prop :=
  length v = n0 /\
  Forall (fun p => length p = n1 /\ Forall (fun r => length r = n2) p) v.

(** The array whose entry [(i, j, k)] is [f i j k]. *)
Definition tabulate3 (n0 n1 n2 : nat) (f : nat -> nat -> nat -> R) : Volume :=
  map (fun i => map (fun j => map (fun k => f i j k) (seq 0 n2)) (seq 0 n1))
      (seq 0 n0).

(** [x[i]] on a one-dimensional array of length [n], for [0 <= i]. *)
Definition getitem (x : list R) (i : nat) : result R :=
  match nth_error x i with
  | Some v => Ok v
  | None =>
      Raise (IndexError ("index " ++ str_of_nat i
                         ++ " is out of bounds for axis 0 with size "
                         ++ str_of_nat (length x))%string)
  end.

(** [np.linspace(start, stop, num)] with the default [endpoint=True]:
    [arange(0, num) * step + start] with [step = (stop - start) / (num - 1)],
    the last entry then overwritten by [stop]; a single sample is [start]. *)
Definition linspace (start stop : R) (num : nat) : list R :=
  match num with
  | O => []
  | S O => [start]
  | S div =>
      let step := (stop - start) / INR div in
      map (fun i => start + INR i * step) (seq 0 div) ++ [stop]
  end.

(** [np.meshgrid(x, y, z, indexing="ij")]: three arrays of shape
    [(len x, len y, len z)] that repeat [x] along axis 0, [y] along axis 1
    and [z] along axis 2. *)
Definition meshgrid (x y z : list R) : Volume * Volume * Volume :=
  (map (fun xi => map (fun _ => map (fun _ => xi) z) y) x,
   map (fun _ => map (fun yj => map (fun _ => yj) z) y) x,
   map (fun _ => map (fun _ => z) y) x).

Fixpoint zip_with {A B C} (f : A -> B -> C) (a : list A) (b : list B) : list C :=
  match a, b with
  | x :: a', y :: b' => f x y :: zip_with f a' b'
  | _, _ => []
  end.

(** Elementwise application of a unary and of a binary operation. *)
Definition ew1 (f : R -> R) (a : Volume) : Volume := map (map (map f)) a.

Definition ew2 (f : R -> R -> R) (a b : Volume) : Volume :=
  zip_with (zip_with (zip_with f)) a b.

Definition np_cos (a : Volume) : Volume := ew1 cos a.
Definition np_sin (a : Volume) : Volume := ew1 sin a.
Definition np_scale (c : R) (a : Volume) : Volume := ew1 (Rmult c) a.
Definition np_mul (a b : Volume) : Volume := ew2 Rmult a b.
Definition np_add (a b : Volume) : Volume := ew2 Rplus a b.

(** [v.min()] and [v.max()] of a non-empty array. *)
Definition amin (v : Volume) : R :=
  match concat (concat v) with
  | [] => 0
  | a :: l => fold_left Rmin l a
  end.

Definition amax (v : Volume) : R :=
  match concat (concat v) with
  | [] => 0
  | a :: l => fold_left Rmax l a
  end.

End Np.

Import Np.

(* ================================================================== *)
(** ** The field function and the sampling stage *)
(* ================================================================== *)

(** The implicit equation at one point: the formula of the docstring. *)
Definition field (x y z : R) : R :=
  cos (2 * x) * sin y * cos z
  + cos (2 * y) * sin z * cos x
  + cos (2 * z) * sin x * cos y.

(** [fischer_koch_s(x, y, z)] as the program calls it: on three arrays,
    with numpy's elementwise operations. *)
Definition fischer_koch_s (x y z : Volume) : Volume :=
  np_add
    (np_add
       (np_mul (np_mul (np_cos (np_scale 2 x)) (np_sin y)) (np_cos z))
       (np_mul (np_mul (np_cos (np_scale 2 y)) (np_sin z)) (np_cos x)))
    (np_mul (np_mul (np_cos (np_scale 2 z)) (np_sin x)) (np_cos y)).

(** Lines 64-73 of [generate_surface] without the progress messages: the
    three coordinate vectors and the sampled volume. *)
Definition axis (bounds : R * R) (resolution : nat) : list R :=
  linspace (fst bounds) (snd bounds) resolution.

Definition sample_volume (resolution : nat) (bounds : R * R) : Volume :=
  let x := axis bounds resolution in
  let y := axis bounds resolution in
  let z := axis bounds resolution in
  let '(X, Y, Z) := meshgrid x y z in
  fischer_koch_s X Y Z.

(* ================================================================== *)
(** ** scipy.ndimage: the Gaussian filter *)
(* ================================================================== *)

Module Ndimage.

(** Mode reflect extends a line of length [n] as (d c b a | a b c d | d c b a):
    the index read for position [i] outside [0, n). *)
Definition reflect (n : nat) (i : Z) : nat :=
  let m := (i mod (2 * Z.of_nat n))%Z in
  Z.to_nat (if (m <? Z.of_nat n)%Z then m else (2 * Z.of_nat n - 1 - m)%Z).

(** [lw = int(truncate * sd + 0.5)] with the default [truncate = 4.0]; the
    filter builds a kernel only for a positive sigma, where [int] is the
    integer part. *)
Definition kernel_radius (sigma : R) : Z := Int_part (4 * sigma + / 2).

(** [arange(-lw, lw + 1)]. *)
Definition kernel_offsets (lw : Z) : list Z :=
  map (fun i => (Z.of_nat i - lw)%Z) (seq 0 (Z.to_nat (2 * lw + 1))).

(** [exp(-0.5 / sigma**2 * x**2)]. *)
Definition phi (sigma : R) (d : Z) : R :=
  exp (- (/ 2) / (sigma * sigma) * (IZR d * IZR d)).

Definition Rsum (l : list R) : R := fold_right Rplus 0 l.

(** The normalised kernel, each weight with its offset. *)
Definition gaussian_kernel1d (sigma : R) (lw : Z) : list (Z * R) :=
  let offs := kernel_offsets lw in
  let total := Rsum (map (phi sigma) offs) in
  map (fun d => (d, phi sigma d / total)) offs.

(** One output sample of the correlation of a line of length [n] with the
    kernel. *)
Definition correlate1d (w : list (Z * R)) (n : nat) (line : nat -> R)
  (i : nat) : R :=
  Rsum (map (fun dw => snd dw * line (reflect n (Z.of_nat i + fst dw))) w).

(** [gaussian_filter1d(input, sigma, axis)]: every line along [axis] is
    correlated with the kernel. *)
Definition gaussian_filter1d (v : Volume) (sigma : R) (axis : nat) : Volume :=
  let '(n0, n1, n2) := shape v in
  let w := gaussian_kernel1d sigma (kernel_radius sigma) in
  match axis with
  | 0%nat =>
      tabulate3 n0 n1 n2
        (fun i j k => correlate1d w n0 (fun i' => vol_get v i' j k) i)
  | 1%nat =>
      tabulate3 n0 n1 n2
        (fun i j k => correlate1d w n1 (fun j' => vol_get v i j' k) j)
  | _ =>
      tabulate3 n0 n1 n2
        (fun i j k => correlate1d w n2 (fun k' => vol_get v i j k') k)
  end.

(** [gaussian_filter(input, sigma)]: one pass per axis, in axis order; an
    axis whose sigma is at most [1e-15] is skipped. *)
Definition gaussian_filter (v : Volume) (sigma : R) : Volume :=
  if Rlt_dec (/ 10 ^ 15) sigma then
    gaussian_filter1d
      (gaussian_filter1d (gaussian_filter1d v sigma 0) sigma 1) sigma 2
  else v.

End Ndimage.

Import Ndimage.

(** Every entry within [[m, M]]. *)
Definition vol_bounded (n0 n1 n2 : nat) (m M : R) (v : Volume) : Prop :=
  forall i j k, (i < n0)%nat -> (j < n1)%nat -> (k < n2)%nat ->
                m <= vol_get v i j k <= M.

(* ================================================================== *)
(** ** skimage.measure: marching cubes *)
(* ================================================================== *)

(** A vertex is a row of the [(V, 3)] array [verts]; a face a row of the
    [(F, 3)] integer array [faces]. *)
Definition Vertex : Type := R * R * R.
Definition Face : Type := nat * nat * nat.
Definition Mesh : Type := list Vertex * list Face.

Module Measure.

Section Extraction.

(** Modelled from the spec: the 256-entry triangulation table of section
    4.4, step 5 (configuration index to edge-index triples).  The table is
    data of the library, absent from the repository; it is a parameter. *)
Variable tri_table : nat -> list (nat * nat * nat).

(** A unit cube, named by its corner of least indices. *)
Definition Cube : Type := nat * nat * nat.

(** Modelled from the spec: the eight corners of a unit cube, in the usual
    marching-cubes numbering (section 4.4, step 1). *)
Definition corner_offset (c : nat) : nat * nat * nat :=
  match c with
  | 0 => (0, 0, 0) | 1 => (1, 0, 0) | 2 => (1, 1, 0) | 3 => (0, 1, 0)
  | 4 => (0, 0, 1) | 5 => (1, 0, 1) | 6 => (1, 1, 1) | _ => (0, 1, 1)
  end%nat.

(** Modelled from the spec: the two corners each of the twelve edges joins
    (section 4.4, step 4). *)
Definition edge_corners (e : nat) : nat * nat :=
  match e with
  | 0 => (0, 1) | 1 => (1, 2) | 2 => (2, 3) | 3 => (3, 0)
  | 4 => (4, 5) | 5 => (5, 6) | 6 => (6, 7) | 7 => (7, 4)
  | 8 => (0, 4) | 9 => (1, 5) | 10 => (2, 6) | _ => (3, 7)
  end%nat.

Definition corner_index (cube : Cube) (c : nat) : nat * nat * nat :=
  let '(i, j, k) := cube in
  let '(di, dj, dk) := corner_offset c in
  (i + di, j + dj, k + dk)%nat.

Definition corner_value (vol : Volume) (cube : Cube) (c : nat) : R :=
  let '(i, j, k) := corner_index cube c in vol_get vol i j k.

(** Modelled from the spec: a corner is inside when its value is below the
    isovalue, outside otherwise (section 4.4, step 2). *)
Definition inside (iso v : R) : bool :=
  if Rlt_dec v iso then true else false.

(** Modelled from the spec: the 8-bit configuration index, bit [c] set when
    corner [c] is inside (section 4.4, step 2). *)
Definition cube_config (vol : Volume) (iso : R) (cube : Cube) : nat :=
  fold_right
    (fun c acc =>
       ((if inside iso (corner_value vol cube c) then 2 ^ c else 0) + acc)%nat)
    0%nat (seq 0 8).

(** Modelled from the spec: every unit cube of the lattice, [i] in
    [0, Nx-2], [j] in [0, Ny-2], [k] in [0, Nz-2] (section 4.4, step 1). *)
Definition cubes (n0 n1 n2 : nat) : list Cube :=
  flat_map
    (fun i =>
       flat_map (fun j => map (fun k => (i, j, k)) (seq 0 (n2 - 1)))
                (seq 0 (n1 - 1)))
    (seq 0 (n0 - 1)).

Definition clamp01 (t : R) : R := Rmax 0 (Rmin 1 t).

(** Modelled from the spec: the interpolation parameter
    [t = (isoValue - v0) / (v1 - v0)], clamped to [[0, 1]] (section 4.4,
    step 4).  Division is total on [R]; on a cut edge [v1 <> v0]. *)
Definition interp_t (iso v0 v1 : R) : R := clamp01 ((iso - v0) / (v1 - v0)).

(** [a + t * (b - a)]. *)
Definition lerp (a b t : R) : R := a + t * (b - a).

(** Modelled from the spec: the vertex on edge [e] of a cube,
    [corner0 + t * (corner1 - corner0)] in grid-index space, scaled by the
    axis spacing (section 4.4, step 4). *)
Definition edge_vertex (vol : Volume) (iso : R) (spacing : R * R * R)
  (cube : Cube) (e : nat) : Vertex :=
  let '(c0, c1) := edge_corners e in
  let '(i0, j0, k0) := corner_index cube c0 in
  let '(i1, j1, k1) := corner_index cube c1 in
  let t := interp_t iso (corner_value vol cube c0) (corner_value vol cube c1) in
  let '(sx, sy, sz) := spacing in
  (lerp (INR i0) (INR i1) t * sx,
   lerp (INR j0) (INR j1) t * sy,
   lerp (INR k0) (INR k1) t * sz).

(** Modelled from the spec: the triangles of one cube; configurations 0 and
    255 are skipped, the others read the table (section 4.4, steps 3 and 5). *)
Definition cube_triangles (vol : Volume) (iso : R) (spacing : R * R * R)
  (cube : Cube) : list (Vertex * Vertex * Vertex) :=
  let cfg := cube_config vol iso cube in
  if ((cfg =? 0) || (cfg =? 255))%nat then []
  else
    map (fun '(e0, e1, e2) =>
           (edge_vertex vol iso spacing cube e0,
            edge_vertex vol iso spacing cube e1,
            edge_vertex vol iso spacing cube e2))
        (tri_table cfg).

(** Modelled from the spec: a triangle is appended with three newly created
    vertices, in creation order (section 4.4, step 6). *)
Definition emit (mesh : Mesh) (tri : Vertex * Vertex * Vertex) : Mesh :=
  let '(verts, faces) := mesh in
  let '(a, b, c) := tri in
  let n := length verts in
  (verts ++ [a; b; c], faces ++ [(n, S n, S (S n))]).

(** Modelled from the spec: the extraction of section 4.4 over the whole
    volume. *)
Definition extract (vol : Volume) (iso : R) (spacing : R * R * R) : Mesh :=
  let '(n0, n1, n2) := shape vol in
  fold_left emit
    (flat_map (cube_triangles vol iso spacing) (cubes n0 n1 n2)) ([], []).

(** [measure.marching_cubes(volume, level=..., spacing=...)] with its other
    arguments at their defaults.  The two argument checks and the check for
    an extraction without vertices are those of the library: the volume must
    be at least 2x2x2, the level must lie within the data range of the
    volume, and an extraction that yields no vertex is reported as an error.
    The extraction between them is compiled library code; here it is
    [extract], the algorithm of section 4.4 of the specification, and not
    the algorithm of the library.  The two are known to differ: the library
    shares one vertex between the triangles that meet on an edge, where
    [emit] creates three vertices per triangle, and the library classifies a
    sample equal to the level with the lower values, where [inside]
    classifies it with the higher ones.  What is proved of the vertices and
    faces of a mesh is therefore proved of the algorithm of the
    specification; what is proved of the three checks holds of the library
    call.  The normals and values the library also returns are dropped by
    the caller and are not modelled. *)
Definition marching_cubes (volume : Volume) (level : R)
  (spacing : R * R * R) : result Mesh :=
  let '(n0, n1, n2) := shape volume in
  if ((n0 <? 2) || (n1 <? 2) || (n2 <? 2))%nat then
    Raise (ValueError "Input array must be at least 2x2x2.")
  else if Rlt_dec level (amin volume) then
    Raise (ValueError "Surface level must be within volume data range.")
  else if Rlt_dec (amax volume) level then
    Raise (ValueError "Surface level must be within volume data range.")
  else
    let mesh := extract volume level spacing in
    match fst mesh with
    | [] => Raise (RuntimeError "No surface found at the given iso value.")
    | _ :: _ => Ok mesh
    end.

End Extraction.

End Measure.

Import Measure.

(* ================================================================== *)
(** ** generate_surface *)
(* ================================================================== *)

(** [verts[:, c] += d]: the in-place update of one column. *)
Definition add_to_column (c : nat) (d : R) (verts : list Vertex) : list Vertex :=
  map (fun '(x, y, z) =>
         match c with
         | 0%nat => (x + d, y, z)
         | 1%nat => (x, y + d, z)
         | _ => (x, y, z + d)
         end) verts.

Section Pipeline.

Variable tri_table : nat -> list (nat * nat * nat).

(** The default of the parameter [iso_value]. *)
Definition default_iso_value : R := 0.

Definition generate_surface (resolution : nat) (bounds : R * R)
  (iso_value : R) : M Mesh :=
  print ("Generating grid with resolution " ++ str_of_nat resolution ++ "x"
         ++ str_of_nat resolution ++ "x" ++ str_of_nat resolution ++ "...") ;;;
  (* Create a 3D grid *)
  let x := linspace (fst bounds) (snd bounds) resolution in
  let y := linspace (fst bounds) (snd bounds) resolution in
  let z := linspace (fst bounds) (snd bounds) resolution in
  (* Create meshgrid *)
  let '(X, Y, Z) := meshgrid x y z in
  (* Evaluate the implicit function *)
  print "Evaluating Fischer-Koch S equation..." ;;;
  let values := fischer_koch_s X Y Z in
  (* Apply Gaussian smoothing for better surface quality *)
  let values := gaussian_filter values (/ 2) in
  (* Extract the isosurface using marching cubes *)
  print "Extracting isosurface using marching cubes..." ;;;
  x1 <- lift (getitem x 1) ;; x0 <- lift (getitem x 0) ;;
  y1 <- lift (getitem y 1) ;; y0 <- lift (getitem y 0) ;;
  z1 <- lift (getitem z 1) ;; z0 <- lift (getitem z 0) ;;
  mesh <- lift (marching_cubes tri_table values iso_value
                  (x1 - x0, y1 - y0, z1 - z0)) ;;
  let '(verts, faces) := mesh in
  (* Adjust vertices to correct coordinate system *)
  let verts := add_to_column 0 (fst bounds) verts in
  let verts := add_to_column 1 (fst bounds) verts in
  let verts := add_to_column 2 (fst bounds) verts in
  ret (verts, faces).

(** The stages of [generate_surface], named: the volume handed to the
    extractor, the spacing handed to the extractor, and the coordinate
    mapping of lines 84-89. *)
Definition smoothed_volume (resolution : nat) (bounds : R * R) : Volume :=
  gaussian_filter (sample_volume resolution bounds) (/ 2).

Definition axis_spacing (resolution : nat) (bounds : R * R)
  : result (R * R * R) :=
  let x := axis bounds resolution in
  match getitem x 1, getitem x 0 with
  | Ok x1, Ok x0 => Ok (x1 - x0, x1 - x0, x1 - x0)
  | Raise e, _ => Raise e
  | _, Raise e => Raise e
  end.

Definition coordinate_mapper (lo : R) (mesh : Mesh) : M Mesh :=
  let '(verts, faces) := mesh in
  let verts := add_to_column 0 lo verts in
  let verts := add_to_column 1 lo verts in
  let verts := add_to_column 2 lo verts in
  ret (verts, faces).

(** The three progress lines of a call. *)
Definition progress (resolution : nat) : list string :=
  [("Generating grid with resolution " ++ str_of_nat resolution ++ "x"
    ++ str_of_nat resolution ++ "x" ++ str_of_nat resolution ++ "...")%string;
   "Evaluating Fischer-Koch S equation..."%string;
   "Extracting isosurface using marching cubes..."%string].

End Pipeline.

(* ================================================================== *)
(** ** main: the interactive shell *)
(* ================================================================== *)

(** The two built-ins [main] applies to the line it reads: [str.strip] and
    [int].  [int] of a string returns an integer or raises [ValueError]
    ([None]). *)
Class Builtins : Type := {
  str_strip : string -> string;
  int_of_str : string -> option Z
}.

Definition nl : string := String "010"%char EmptyString.

Fixpoint str_repeat (s : string) (n : nat) : string :=
  match n with
  | O => EmptyString
  | S n' => (s ++ str_repeat s n')%string
  end.

(** Truth value of a string: false exactly when empty. *)
Definition str_truthy (s : string) : bool :=
  match s with
  | EmptyString => false
  | String _ _ => true
  end.

Section Main.

Context {builtins : Builtins}.
Variable tri_table : nat -> list (nat * nat * nat).

(** The rendering collaborators: [plot_surface] and [plt.show]. *)
Variable plot_surface : Mesh -> M unit.
Variable plt_show : M unit.

Definition int (s : string) : result Z :=
  match int_of_str s with
  | Some n => Ok n
  | None =>
      Raise (ValueError ("invalid literal for int() with base 10: '" ++ s ++ "'"))
  end.

(** Lines 166-172: the resolution read from the line the user enters. *)
Definition read_resolution (line : string) : M Z :=
  fun con =>
    let attempt : M Z :=
      print (nl ++ "Enter grid resolution (30-100, default=50): ") ;;;
      let resolution := str_strip line in
      resolution <- lift (if str_truthy resolution then int resolution
                          else Ok 50%Z) ;;
      (* Clamp between 30 and 100 *)
      ret (Z.max 30 (Z.min 100 resolution)) in
    match attempt con with
    | (con', Raise (ValueError _)) =>
        (print "Using default resolution: 50" ;;; ret 50%Z) con'
    | other => other
    end.

(** Lines 174-209: what [main] does once the resolution is known. *)
Definition main_with (resolution : Z) : M Z :=
  print (nl ++ "Using resolution: " ++ str_of_Z resolution) ;;;
  print (str_repeat "-" 60) ;;;
  fun con =>
    let attempt : M unit :=
      mesh <- generate_surface tri_table (Z.to_nat resolution) (- PI, PI) 0 ;;
      print (nl ++ "Surface generated successfully!") ;;;
      print ("Vertices: " ++ str_of_nat (length (fst mesh))) ;;;
      print ("Faces: " ++ str_of_nat (length (snd mesh))) ;;;
      print (nl ++ "Rendering 3D visualization...") ;;;
      plot_surface mesh ;;;
      print (nl ++ str_repeat "=" 60) ;;;
      print "VISUALIZATION CONTROLS:" ;;;
      print (str_repeat "-" 60) ;;;
      print "• Click and drag to rotate the view" ;;;
      print "• Right-click and drag to zoom" ;;;
      print "• Middle-click and drag to pan" ;;;
      print "• Close the window to exit" ;;;
      print (str_repeat "=" 60) ;;;
      plt_show in
    match attempt con with
    | (con', Raise e) =>
        (print (nl ++ "Error generating surface: " ++ message e) ;;;
         print "Please check that all dependencies are installed correctly." ;;;
         ret 1%Z) con'
    | (con', Ok _) =>
        (print (nl ++ "Visualization complete!") ;;; ret 0%Z) con'
    end.

Definition main (line : string) : M Z :=
  print (str_repeat "=" 60) ;;;
  print "Fischer-Koch S Surface Visualization" ;;;
  print (str_repeat "=" 60) ;;;
  print (nl ++ "This program generates a 3D visualization of the Fischer-Koch S") ;;;
  print "triply periodic minimal surface (TPMS) using the implicit equation:" ;;;
  print "cos(2x)·sin(y)·cos(z) + cos(2y)·sin(z)·cos(x) + cos(2z)·sin(x)·cos(y) = 0" ;;;
  print (str_repeat "-" 60) ;;;
  (* User input for resolution *)
  resolution <- read_resolution line ;;
  main_with resolution.

(** Lines 183-201 of [main]: what follows a successful generation, up to
    the display. *)
Definition report_and_render (mesh : Mesh) : M unit :=
  print (nl ++ "Surface generated successfully!") ;;;
  print ("Vertices: " ++ str_of_nat (length (fst mesh))) ;;;
  print ("Faces: " ++ str_of_nat (length (snd mesh))) ;;;
  print (nl ++ "Rendering 3D visualization...") ;;;
  plot_surface mesh ;;;
  print (nl ++ str_repeat "=" 60) ;;;
  print "VISUALIZATION CONTROLS:" ;;;
  print (str_repeat "-" 60) ;;;
  print "• Click and drag to rotate the view" ;;;
  print "• Right-click and drag to zoom" ;;;
  print "• Middle-click and drag to pan" ;;;
  print "• Close the window to exit" ;;;
  print (str_repeat "=" 60) ;;;
  plt_show.

End Main.

(** An instance of the built-ins for ASCII lines: blanks are the ASCII
    whitespace characters, and an integer literal is an optional sign and
    decimal digits, single underscores allowed between digits. *)
Module AsciiBuiltins.

Definition is_space (c : ascii) : bool :=
  let n := nat_of_ascii c in
  ((9 <=? n) && (n <=? 13) || (28 <=? n) && (n <=? 32))%nat.

Fixpoint lstrip (l : list ascii) : list ascii :=
  match l with
  | c :: l' => if is_space c then lstrip l' else l
  | [] => []
  end.

Definition strip (s : string) : string :=
  string_of_list_ascii
    (rev (lstrip (rev (lstrip (list_ascii_of_string s))))).

Definition digit_value (c : ascii) : option Z :=
  let n := nat_of_ascii c in
  if ((48 <=? n) && (n <=? 57))%nat then Some (Z.of_nat (n - 48)) else None.

Fixpoint digits (l : list ascii) (acc : Z) (after_digit : bool) : option Z :=
  match l with
  | [] => if after_digit then Some acc else None
  | c :: l' =>
      match digit_value c with
      | Some d => digits l' (10 * acc + d)%Z true
      | None =>
          if (Ascii.eqb c "_" && after_digit)%bool then digits l' acc false
          else None
      end
  end.

Definition parse_int (s : string) : option Z :=
  match list_ascii_of_string s with
  | "-"%char :: l => option_map Z.opp (digits l 0%Z false)
  | "+"%char :: l => digits l 0%Z false
  | l => digits l 0%Z false
  end.

Definition ascii_builtins : Builtins :=
  {| str_strip := strip; int_of_str := parse_int |}.

End AsciiBuiltins.

(* ================================================================== *)
(** ** plot_surface: the view limits *)
(* ================================================================== *)

(** [verts[:, c]]. *)
Definition column (c : nat) (verts : list Vertex) : list R :=
  map (fun '(x, y, z) =>
         match c with
         | 0%nat => x
         | 1%nat => y
         | _ => z
         end) verts.

(** [a.max()] and [a.min()] of a one-dimensional array: a reduction of an
    empty array raises. *)
Definition np_max (a : list R) : result R :=
  match a with
  | [] =>
      Raise (ValueError
        "zero-size array to reduction operation maximum which has no identity")
  | x :: a' => Ok (fold_left Rmax a' x)
  end.

Definition np_min (a : list R) : result R :=
  match a with
  | [] =>
      Raise (ValueError
        "zero-size array to reduction operation minimum which has no identity")
  | x :: a' => Ok (fold_left Rmin a' x)
  end.

Definition rbind {A B} (r : result A) (k : A -> result B) : result B :=
  match r with
  | Ok a => k a
  | Raise e => Raise e
  end.

Notation "x <-- r ;; k" := (rbind r (fun x => k))
  (at level 61, r at next level, right associativity).

(** [verts[:, c].max() - verts[:, c].min()]. *)
Definition extent (c : nat) (verts : list Vertex) : result R :=
  hi <-- np_max (column c verts) ;;
  lo <-- np_min (column c verts) ;;
  Ok (hi - lo).

(** Lines 127-136 of [plot_surface]: half the largest of the three
    extents. *)
Definition max_range (verts : list Vertex) : result R :=
  e0 <-- extent 0 verts ;;
  e1 <-- extent 1 verts ;;
  e2 <-- extent 2 verts ;;
  Ok (fold_left Rmax [e1; e2] e0 / 2).

(** Lines 138-140: [(verts[:, c].max() + verts[:, c].min()) * 0.5]. *)
Definition mid (c : nat) (verts : list Vertex) : result R :=
  hi <-- np_max (column c verts) ;;
  lo <-- np_min (column c verts) ;;
  Ok ((hi + lo) * / 2).

(** Lines 127-144: the limits set on the three axes. *)
Definition view_limits (verts : list Vertex)
  : result ((R * R) * (R * R) * (R * R)) :=
  r <-- max_range verts ;;
  mid_x <-- mid 0 verts ;;
  mid_y <-- mid 1 verts ;;
  mid_z <-- mid 2 verts ;;
  Ok ((mid_x - r, mid_x + r), (mid_y - r, mid_y + r), (mid_z - r, mid_z + r)).

(* ================================================================== *)
(** ** Definitions for the statements *)
(* ================================================================== *)

(** The [i]-th of [n] evenly spaced coordinates spanning [[lo, hi]]. *)
Definition lattice (lo hi : R) (n i : nat) : R :=
  lo + INR i * ((hi - lo) / INR (n - 1)).

(** The sum of the unnormalised weights of radius 2. *)
Definition kernel_total : R :=
  Rsum (map (phi (/ 2)) [-2; -1; 0; 1; 2]%Z).

(** On a line of two samples [a, b], extended as (b a | a b | b a), the
    filter returns [w_same * a + w_other * b] at the first position. *)
Definition w_same : R := (phi (/ 2) 0 + phi (/ 2) 1) / kernel_total.
Definition w_other : R := (phi (/ 2) 1 + 2 * phi (/ 2) 2) / kernel_total.

(** The three vertices of each triangle, in emission order. *)
Definition triangle_vertices (tris : list (Vertex * Vertex * Vertex))
  : list Vertex :=
  flat_map (fun '(a, b, c) => [a; b; c]) tris.

(** The lattice point of grid index [p] in the coordinates of the
    extractor: each index times the spacing of its axis. *)
Definition grid_point (spacing : R * R * R) (p : nat * nat * nat) : Vertex :=
  let '(sx, sy, sz) := spacing in
  let '(i, j, k) := p in
  (INR i * sx, INR j * sy, INR k * sz).

(** [x] lies between [a] and [b], whichever of the two is the smaller. *)
Definition between (a b x : R) : Prop := Rmin a b <= x <= Rmax a b.

(** [v] is the point at parameter [t] of the segment from [p] to [q], and
    each of its coordinates lies between those of [p] and [q]. *)
Definition on_segment (t : R) (p q v : Vertex) : Prop :=
  let '(px, py, pz) := p in
  let '(qx, qy, qz) := q in
  let '(x, y, z) := v in
  (x = px + t * (qx - px) /\ y = py + t * (qy - py) /\ z = pz + t * (qz - pz))
  /\ between px qx x /\ between py qy y /\ between pz qz z.

(** [v] is placed on edge [e] of [cube] by clamped linear interpolation: at
    the parameter [t = (iso - v0) / (v1 - v0)] clamped to [[0, 1]], between
    the two ends of the edge, where the value interpolated between the two
    corner values [v0] and [v1] lies between them. *)
Definition placed_on_edge (vol : Volume) (iso : R) (spacing : R * R * R)
  (cube : Cube) (e : nat) (v : Vertex) : Prop :=
  let c0 := fst (edge_corners e) in
  let c1 := snd (edge_corners e) in
  let v0 := corner_value vol cube c0 in
  let v1 := corner_value vol cube c1 in
  let t := Rmax 0 (Rmin 1 ((iso - v0) / (v1 - v0))) in
  0 <= t <= 1 /\
  on_segment t (grid_point spacing (corner_index cube c0))
               (grid_point spacing (corner_index cube c1)) v /\
  between v0 v1 (v0 + t * (v1 - v0)).

(** Edge [e] of [cube] is cut: one end is below the level, the other is
    not.  On a cut edge the clamp is idle: the parameter is the quotient
    itself, and the value interpolated at it is the level. *)
Definition cut_edge (vol : Volume) (iso : R) (cube : Cube) (e : nat) : Prop :=
  let v0 := corner_value vol cube (fst (edge_corners e)) in
  let v1 := corner_value vol cube (snd (edge_corners e)) in
  let q := (iso - v0) / (v1 - v0) in
  (v0 < iso <= v1 \/ v1 < iso <= v0) /\
  Rmax 0 (Rmin 1 q) = q /\
  v0 + q * (v1 - v0) = iso.

(** A vertex placed on one of the twelve edges of a cube of the lattice. *)
Definition interpolated (vol : Volume) (iso : R) (spacing : R * R * R)
  (v : Vertex) : Prop :=
  exists cube e,
    In cube (let '(n0, n1, n2) := shape vol in cubes n0 n1 n2) /\
    (e < 12)%nat /\
    placed_on_edge vol iso spacing cube e v.

(** A vertex placed on a cut edge of a cube of the lattice. *)
Definition interpolated_on_cut (vol : Volume) (iso : R) (spacing : R * R * R)
  (v : Vertex) : Prop :=
  exists cube e,
    In cube (let '(n0, n1, n2) := shape vol in cubes n0 n1 n2) /\
    (e < 12)%nat /\
    cut_edge vol iso cube e /\
    placed_on_edge vol iso spacing cube e v.

(** A triangulation table names cut edges only: every edge index in the row
    of a configuration is one of the twelve, and the two corners it joins
    have different bits in the configuration. *)
Definition table_cuts (table : nat -> list (nat * nat * nat)) : Prop :=
  forall cfg e0 e1 e2 e,
    (cfg < 256)%nat -> In (e0, e1, e2) (table cfg) ->
    e = e0 \/ e = e1 \/ e = e2 ->
    (e < 12)%nat /\
    Nat.testbit cfg (fst (edge_corners e))
    <> Nat.testbit cfg (snd (edge_corners e)).

(** The coordinate of lattice index [i]: -1 at index 0, 1 at index 1. *)
Definition sgn (i : nat) : R :=
  match i with
  | O => Ropp 1
  | S _ => 1
  end.

(** The common factor of the eight samples. *)
Definition unit_sample : R := cos 2 * sin 1 * cos 1.

(** Three rows of a triangulation table.  Configuration 1 (corner 0 alone
    inside) and its complement 254 (corner 0 alone outside) cut the three
    edges 0, 3 and 8 that meet at corner 0; configuration 228 (corners 2, 5,
    6 and 7 inside) cuts the hexagon through the edges 1, 2, 11, 7, 4 and 9,
    triangulated as a fan.  The other rows are left empty. *)
Definition table_rows (cfg : nat) : list (nat * nat * nat) :=
  if (cfg =? 1)%nat then [(0, 8, 3)]%nat
  else if (cfg =? 254)%nat then [(0, 3, 8)]%nat
  else if (cfg =? 228)%nat then
    [(1, 2, 11); (1, 11, 7); (1, 7, 4); (1, 4, 9)]%nat
  else [].

(** The seven lines [main] prints before it asks for the resolution. *)
Definition banner : list string :=
  [str_repeat "=" 60;
   "Fischer-Koch S Surface Visualization"%string;
   str_repeat "=" 60;
   (nl ++ "This program generates a 3D visualization of the Fischer-Koch S")%string;
   "triply periodic minimal surface (TPMS) using the implicit equation:"%string;
   "cos(2x)·sin(y)·cos(z) + cos(2y)·sin(z)·cos(x) + cos(2z)·sin(x)·cos(y) = 0"%string;
   str_repeat "-" 60].

(** The two lines [main_with] prints before it generates. *)
Definition resolution_lines (r : Z) : list string :=
  [(nl ++ "Using resolution: " ++ str_of_Z r)%string; str_repeat "-" 60].

(** The two lines that report a failure. *)
Definition failure_lines (e : exn) : list string :=
  [(nl ++ "Error generating surface: " ++ message e)%string;
   "Please check that all dependencies are installed correctly."%string].

(** The translation by the lower bound: [lo] added to each component. *)
Definition translate (lo : R) (v : Vertex) : Vertex :=
  let '(x, y, z) := v in (x + lo, y + lo, z + lo).

(** The statement of the sampling stage at one input: the entry count, the
    evenly spaced coordinates with their two ends, the sampled entries, the
    spacing, and the call of the extractor that receives them. *)
Definition sampling_stage_spec (tri_table : nat -> list (nat * nat * nat))
  (resolution : nat) (lo hi : R) : Prop :=
  let h := (hi - lo) / INR (resolution - 1) in
  let x := axis (lo, hi) resolution in
  let vol := sample_volume resolution (lo, hi) in
  size vol = (resolution ^ 3)%nat /\
  (forall i, (i < resolution)%nat -> nth i x 0 = lo + INR i * h) /\
  nth 0 x 0 = lo /\ nth (resolution - 1) x 0 = hi /\
  (forall i j k, (i < resolution)%nat -> (j < resolution)%nat ->
                 (k < resolution)%nat ->
                 vol_get vol i j k = field (nth i x 0) (nth j x 0) (nth k x 0)) /\
  axis_spacing resolution (lo, hi) = Ok (h, h, h) /\
  forall iso con,
    generate_surface tri_table resolution (lo, hi) iso con =
    match marching_cubes tri_table (gaussian_filter vol (/ 2)) iso (h, h, h) with
    | Raise e => (con ++ progress resolution, Raise e)
    | Ok mesh => coordinate_mapper lo mesh (con ++ progress resolution)
    end.

(* ================================================================== *)
(** * Lemmas *)
(* ================================================================== *)

(* ================================================================== *)
(** ** Arrays: shapes and entries *)
(* ================================================================== *)

Section ArrayFacts.

Lemma zip_with_length {A B C} (f : A -> B -> C) a b :
  length (zip_with f a b) = Nat.min (length a) (length b).
Proof.
  revert b; induction a as [|x a IH]; intros [|y b]; simpl; auto.
Qed.

Lemma zip_with_nth {A B C} (f : A -> B -> C) a b i da db dc :
  (i < length a)%nat -> (i < length b)%nat ->
  nth i (zip_with f a b) dc = f (nth i a da) (nth i b db).
Proof.
  revert b i; induction a as [|x a IH]; intros [|y b] [|i]; simpl;
    intros Ha Hb; try lia; auto.
  apply IH; lia.
Qed.

Lemma has_shape_nth_plane n0 n1 n2 v i :
  has_shape n0 n1 n2 v -> (i < n0)%nat ->
  length (nth i v []) = n1 /\
  Forall (fun r => length r = n2) (nth i v []).
Proof.
  intros [Hl Hf] Hi.
  rewrite Forall_forall in Hf.
  apply Hf, nth_In; lia.
Qed.

Lemma has_shape_nth_row n0 n1 n2 v i j :
  has_shape n0 n1 n2 v -> (i < n0)%nat -> (j < n1)%nat ->
  length (nth j (nth i v []) []) = n2.
Proof.
  intros Hs Hi Hj.
  destruct (has_shape_nth_plane _ _ _ _ _ Hs Hi) as [Hl Hf].
  rewrite Forall_forall in Hf.
  apply Hf, nth_In; lia.
Qed.

Lemma has_shape_intro n0 n1 n2 (v : Volume) :
  length v = n0 ->
  (forall i, (i < n0)%nat -> length (nth i v []) = n1) ->
  (forall i j, (i < n0)%nat -> (j < n1)%nat ->
               length (nth j (nth i v []) []) = n2) ->
  has_shape n0 n1 n2 v.
Proof.
  intros Hl H1 H2; split; [exact Hl|].
  apply Forall_forall; intros p Hp.
  destruct (In_nth _ _ [] Hp) as (i & Hi & <-).
  split; [apply H1; lia|].
  apply Forall_forall; intros r Hr.
  destruct (In_nth _ _ [] Hr) as (j & Hj & <-).
  apply H2; [lia|]. rewrite H1 in Hj; lia.
Qed.

Lemma tabulate3_shape n0 n1 n2 f : has_shape n0 n1 n2 (tabulate3 n0 n1 n2 f).
Proof.
  unfold tabulate3; split.
  - now rewrite length_map, length_seq.
  - apply Forall_forall; intros p Hp.
    apply in_map_iff in Hp as (i & <- & _).
    rewrite length_map, length_seq; split; [reflexivity|].
    apply Forall_forall; intros r Hr.
    apply in_map_iff in Hr as (j & <- & _).
    now rewrite length_map, length_seq.
Qed.

Lemma map_seq_nth {A} (g : nat -> A) n i d :
  (i < n)%nat -> nth i (map g (seq 0 n)) d = g i.
Proof.
  intros Hi.
  rewrite (nth_indep _ d (g 0%nat)) by now rewrite length_map, length_seq.
  rewrite (map_nth g (seq 0 n) 0%nat i), seq_nth; auto.
Qed.

Lemma tabulate3_get n0 n1 n2 f i j k :
  (i < n0)%nat -> (j < n1)%nat -> (k < n2)%nat ->
  vol_get (tabulate3 n0 n1 n2 f) i j k = f i j k.
Proof.
  intros Hi Hj Hk; unfold vol_get, tabulate3.
  now rewrite (map_seq_nth _ n0 i) , (map_seq_nth _ n1 j), (map_seq_nth _ n2 k).
Qed.

(** A rectangular array is the table of its entries. *)
Lemma has_shape_tabulate n0 n1 n2 v :
  has_shape n0 n1 n2 v -> v = tabulate3 n0 n1 n2 (vol_get v).
Proof.
  intros Hs.
  apply (nth_ext _ _ [] []).
  - destruct Hs as [Hl _]; unfold tabulate3.
    now rewrite length_map, length_seq.
  - intros i Hi. assert (Hi' : (i < n0)%nat) by (destruct Hs; lia).
    unfold tabulate3; rewrite (map_seq_nth _ n0 i) by exact Hi'.
    apply (nth_ext _ _ [] []).
    + rewrite length_map, length_seq.
      apply (has_shape_nth_plane _ _ _ _ _ Hs Hi').
    + intros j Hj.
      assert (Hj' : (j < n1)%nat)
        by (destruct (has_shape_nth_plane _ _ _ _ _ Hs Hi'); lia).
      rewrite (map_seq_nth _ n1 j) by exact Hj'.
      apply (nth_ext _ _ 0 0).
      * rewrite length_map, length_seq.
        now apply (has_shape_nth_row n0 n1 n2).
      * intros k Hk.
        rewrite (has_shape_nth_row n0 n1 n2) in Hk by assumption.
        now rewrite (map_seq_nth _ n2 k).
Qed.

Lemma concat_length_const {A} (l : list (list A)) n :
  Forall (fun r => length r = n) l -> length (concat l) = (length l * n)%nat.
Proof.
  induction 1 as [|r l Hr _ IH]; simpl; [reflexivity|].
  rewrite length_app, IH, Hr; lia.
Qed.

Lemma has_shape_size n0 n1 n2 v :
  has_shape n0 n1 n2 v -> size v = (n0 * n1 * n2)%nat.
Proof.
  intros [Hl Hf]; unfold size.
  rewrite (concat_length_const _ n2).
  - rewrite (concat_length_const _ n1), Hl; [reflexivity|].
    eapply Forall_impl; [|exact Hf]; simpl; tauto.
  - apply Forall_concat.
    eapply Forall_impl; [|exact Hf]; simpl; tauto.
Qed.

Lemma ew1_shape f n0 n1 n2 v :
  has_shape n0 n1 n2 v -> has_shape n0 n1 n2 (ew1 f v).
Proof.
  intros [Hl Hf]; unfold ew1; split; [now rewrite length_map|].
  apply Forall_map; eapply Forall_impl; [|exact Hf]; simpl.
  intros p [Hp Hr]; rewrite length_map; split; [exact Hp|].
  apply Forall_map; eapply Forall_impl; [|exact Hr]; simpl.
  intros r Hlen; now rewrite length_map.
Qed.

Lemma ew1_get f n0 n1 n2 v i j k :
  has_shape n0 n1 n2 v -> (i < n0)%nat -> (j < n1)%nat -> (k < n2)%nat ->
  vol_get (ew1 f v) i j k = f (vol_get v i j k).
Proof.
  intros Hs Hi Hj Hk; unfold vol_get, ew1.
  destruct (has_shape_nth_plane _ _ _ _ _ Hs Hi) as [Hp _].
  pose proof (has_shape_nth_row _ _ _ _ _ _ Hs Hi Hj) as Hr.
  rewrite (nth_indep _ [] (map (map f) [])) by (rewrite length_map; destruct Hs; lia).
  rewrite map_nth.
  rewrite (nth_indep _ [] (map f [])) by (rewrite length_map; lia).
  rewrite map_nth.
  rewrite (nth_indep _ 0 (f 0)) by (rewrite length_map; lia).
  now rewrite map_nth.
Qed.

Lemma ew2_shape f n0 n1 n2 a b :
  has_shape n0 n1 n2 a -> has_shape n0 n1 n2 b ->
  has_shape n0 n1 n2 (ew2 f a b).
Proof.
  intros Ha Hb; unfold ew2.
  assert (L0 : length (zip_with (zip_with (zip_with f)) a b) = n0)
    by (rewrite zip_with_length; destruct Ha, Hb; lia).
  assert (P : forall i, (i < n0)%nat ->
            nth i (zip_with (zip_with (zip_with f)) a b) [] =
            zip_with (zip_with f) (nth i a []) (nth i b []))
    by (intros i Hi; apply zip_with_nth; destruct Ha, Hb; lia).
  apply has_shape_intro; [exact L0| |].
  - intros i Hi; rewrite P, zip_with_length by exact Hi.
    destruct (has_shape_nth_plane _ _ _ _ _ Ha Hi),
             (has_shape_nth_plane _ _ _ _ _ Hb Hi); lia.
  - intros i j Hi Hj; rewrite P by exact Hi.
    destruct (has_shape_nth_plane _ _ _ _ _ Ha Hi),
             (has_shape_nth_plane _ _ _ _ _ Hb Hi).
    rewrite (zip_with_nth _ _ _ _ [] []) by lia.
    rewrite zip_with_length.
    rewrite (has_shape_nth_row _ _ _ _ _ _ Ha Hi Hj),
            (has_shape_nth_row _ _ _ _ _ _ Hb Hi Hj); lia.
Qed.

Lemma ew2_get f n0 n1 n2 a b i j k :
  has_shape n0 n1 n2 a -> has_shape n0 n1 n2 b ->
  (i < n0)%nat -> (j < n1)%nat -> (k < n2)%nat ->
  vol_get (ew2 f a b) i j k = f (vol_get a i j k) (vol_get b i j k).
Proof.
  intros Ha Hb Hi Hj Hk; unfold vol_get, ew2.
  destruct (has_shape_nth_plane _ _ _ _ _ Ha Hi),
           (has_shape_nth_plane _ _ _ _ _ Hb Hi).
  pose proof (has_shape_nth_row _ _ _ _ _ _ Ha Hi Hj).
  pose proof (has_shape_nth_row _ _ _ _ _ _ Hb Hi Hj).
  rewrite (zip_with_nth _ _ _ _ [] []) by (destruct Ha, Hb; lia).
  rewrite (zip_with_nth _ _ _ _ [] []) by lia.
  apply zip_with_nth; lia.
Qed.

End ArrayFacts.

(* ================================================================== *)
(** ** The sampling stage: lattice coordinates and sampled entries *)
(* ================================================================== *)

Section Sampling.

Lemma linspace_length a b n : length (linspace a b n) = n.
Proof.
  destruct n as [|[|n]]; simpl; auto.
  rewrite length_app, length_map, length_seq; simpl; lia.
Qed.

Lemma linspace_nth a b n i :
  (2 <= n)%nat -> (i < n)%nat -> nth i (linspace a b n) 0 = lattice a b n i.
Proof.
  intros Hn Hi; unfold lattice.
  destruct n as [|[|n]]; try lia.
  replace (S (S n) - 1)%nat with (S n) by lia.
  unfold linspace.
  destruct (Nat.lt_ge_cases i (S n)) as [Hlt|Hge].
  - rewrite app_nth1 by now rewrite length_map, length_seq.
    now rewrite (map_seq_nth _ (S n) i).
  - assert (i = S n) by lia; subst i.
    rewrite app_nth2 by (rewrite length_map, length_seq; lia).
    rewrite length_map, length_seq, Nat.sub_diag; simpl nth.
    assert (INR (S n) <> 0) by (apply not_0_INR; lia).
    field; assumption.
Qed.

Lemma lattice_first lo hi n : lattice lo hi n 0 = lo.
Proof. unfold lattice; simpl; ring. Qed.

Lemma lattice_last lo hi n : (2 <= n)%nat -> lattice lo hi n (n - 1) = hi.
Proof.
  intros Hn; unfold lattice.
  assert (INR (n - 1) <> 0) by (apply not_0_INR; lia).
  field; assumption.
Qed.

Lemma lattice_step lo hi n i :
  lattice lo hi n (S i) - lattice lo hi n i = (hi - lo) / INR (n - 1).
Proof. unfold lattice; rewrite S_INR; ring. Qed.

Lemma meshgrid_shape x y z :
  let '(X, Y, Z) := meshgrid x y z in
  has_shape (length x) (length y) (length z) X /\
  has_shape (length x) (length y) (length z) Y /\
  has_shape (length x) (length y) (length z) Z.
Proof.
  unfold meshgrid; repeat split; try now rewrite length_map.
  all: apply Forall_map, Forall_forall; intros xi _;
    rewrite ?length_map; split; [reflexivity|];
    try (apply Forall_map); apply Forall_forall; intros yj _;
    now rewrite ?length_map.
Qed.

Lemma meshgrid_get x y z i j k :
  (i < length x)%nat -> (j < length y)%nat -> (k < length z)%nat ->
  let '(X, Y, Z) := meshgrid x y z in
  vol_get X i j k = nth i x 0 /\
  vol_get Y i j k = nth j y 0 /\
  vol_get Z i j k = nth k z 0.
Proof.
  intros Hi Hj Hk; unfold meshgrid, vol_get.
  assert (E : forall {A B} (g : A -> B) (l : list A) n da db,
             (n < length l)%nat -> nth n (map g l) db = g (nth n l da)).
  { intros A B g l n da db Hn.
    rewrite (nth_indep _ db (g da)) by now rewrite length_map.
    apply map_nth. }
  repeat split.
  - rewrite (E _ _ _ x i 0 []), (E _ _ _ y j 0 []), (E _ _ _ z k 0 0); auto.
  - rewrite (E _ _ _ x i 0 []), (E _ _ _ y j 0 []), (E _ _ _ z k 0 0); auto.
  - rewrite (E _ _ _ x i 0 []), (E _ _ _ y j 0 []); auto.
Qed.

Lemma fischer_koch_s_shape n0 n1 n2 X Y Z :
  has_shape n0 n1 n2 X -> has_shape n0 n1 n2 Y -> has_shape n0 n1 n2 Z ->
  has_shape n0 n1 n2 (fischer_koch_s X Y Z).
Proof.
  intros HX HY HZ; unfold fischer_koch_s, np_add, np_mul, np_cos, np_sin, np_scale.
  repeat first [apply ew2_shape | apply ew1_shape | assumption].
Qed.

(** The array-level evaluation is the pointwise formula. *)
Lemma fischer_koch_s_get n0 n1 n2 X Y Z i j k :
  has_shape n0 n1 n2 X -> has_shape n0 n1 n2 Y -> has_shape n0 n1 n2 Z ->
  (i < n0)%nat -> (j < n1)%nat -> (k < n2)%nat ->
  vol_get (fischer_koch_s X Y Z) i j k =
  field (vol_get X i j k) (vol_get Y i j k) (vol_get Z i j k).
Proof.
  intros HX HY HZ Hi Hj Hk.
  unfold fischer_koch_s, np_add, np_mul, np_cos, np_sin, np_scale, field.
  repeat first
    [ rewrite (ew2_get _ n0 n1 n2)
        by repeat first [apply ew2_shape | apply ew1_shape | assumption]
    | rewrite (ew1_get _ n0 n1 n2)
        by repeat first [apply ew2_shape | apply ew1_shape | assumption] ].
  reflexivity.
Qed.

Lemma sample_volume_shape n bounds :
  has_shape n n n (sample_volume n bounds).
Proof.
  unfold sample_volume, axis.
  pose proof (meshgrid_shape (linspace (fst bounds) (snd bounds) n)
                (linspace (fst bounds) (snd bounds) n)
                (linspace (fst bounds) (snd bounds) n)) as H.
  destruct (meshgrid _ _ _) as [[X Y] Z].
  rewrite linspace_length in H; destruct H as (HX & HY & HZ).
  now apply fischer_koch_s_shape.
Qed.

Lemma sample_volume_entry n bounds i j k :
  (i < n)%nat -> (j < n)%nat -> (k < n)%nat ->
  vol_get (sample_volume n bounds) i j k =
  field (nth i (axis bounds n) 0) (nth j (axis bounds n) 0)
        (nth k (axis bounds n) 0).
Proof.
  intros Hi Hj Hk; unfold sample_volume.
  pose proof (meshgrid_shape (axis bounds n) (axis bounds n) (axis bounds n)) as H.
  pose proof (meshgrid_get (axis bounds n) (axis bounds n) (axis bounds n) i j k)
    as G.
  destruct (meshgrid _ _ _) as [[X Y] Z].
  unfold axis in H, G; rewrite linspace_length in H, G.
  destruct H as (HX & HY & HZ), (G Hi Hj Hk) as (GX & GY & GZ).
  rewrite (fischer_koch_s_get n n n) by assumption.
  unfold axis; now rewrite GX, GY, GZ.
Qed.

End Sampling.

(* ================================================================== *)
(** ** The Gaussian filter: shape and range *)
(* ================================================================== *)

Section Smoothing.

Example reflect_line :
  map (reflect 4) [-5; -4; -2; -1; 0; 3; 4; 5; 8]%Z
  = [3; 3; 1; 0; 0; 3; 3; 2; 0]%nat.
Proof. reflexivity. Qed.

Example reflect_pair :
  map (reflect 2) [-2; -1; 0; 1; 2; 3]%Z = [1; 0; 0; 1; 1; 0]%nat.
Proof. reflexivity. Qed.

Lemma reflect_lt n i : (0 < n)%nat -> (reflect n i < n)%nat.
Proof.
  intros Hn; unfold reflect.
  pose proof (Z.mod_pos_bound i (2 * Z.of_nat n) ltac:(lia)) as Hm.
  destruct (Z.ltb_spec (i mod (2 * Z.of_nat n)) (Z.of_nat n)); lia.
Qed.

Lemma reflect_inside n i : (i < n)%nat -> reflect n (Z.of_nat i) = i.
Proof.
  intros Hi; unfold reflect.
  rewrite Z.mod_small by lia.
  destruct (Z.ltb_spec (Z.of_nat i) (Z.of_nat n)); lia.
Qed.

Lemma phi_pos sigma d : 0 < phi sigma d.
Proof. apply exp_pos. Qed.

Lemma Rsum_pos l : l <> [] -> Forall (fun x => 0 < x) l -> 0 < Rsum l.
Proof.
  intros Hne Hl; induction Hl as [|x l Hx Hl IH]; [congruence|].
  simpl. destruct l as [|y l]; [simpl; lra|].
  assert (0 < Rsum (y :: l)) by (apply IH; discriminate). lra.
Qed.

Lemma kernel_offsets_nonempty lw : (0 <= lw)%Z -> kernel_offsets lw <> [].
Proof.
  intros H; unfold kernel_offsets.
  destruct (Z.to_nat (2 * lw + 1)) eqn:E; [lia|discriminate].
Qed.

Lemma kernel_total_pos sigma lw :
  (0 <= lw)%Z -> 0 < Rsum (map (phi sigma) (kernel_offsets lw)).
Proof.
  intros H; apply Rsum_pos.
  - intros E; apply map_eq_nil in E; now apply kernel_offsets_nonempty in E.
  - apply Forall_map, Forall_forall; intros; apply phi_pos.
Qed.

Lemma kernel_weights_pos sigma lw :
  (0 <= lw)%Z -> Forall (fun dw => 0 < snd dw) (gaussian_kernel1d sigma lw).
Proof.
  intros H; unfold gaussian_kernel1d.
  apply Forall_map, Forall_forall; intros d _; simpl.
  apply Rdiv_lt_0_compat; [apply phi_pos|now apply kernel_total_pos].
Qed.

Lemma Rsum_div l c : Rsum (map (fun x => x / c) l) = Rsum l / c.
Proof.
  induction l as [|x l IH]; simpl; [lra|]. rewrite IH; lra.
Qed.

Lemma kernel_weights_sum sigma lw :
  (0 <= lw)%Z -> Rsum (map snd (gaussian_kernel1d sigma lw)) = 1.
Proof.
  intros H; unfold gaussian_kernel1d.
  rewrite map_map; simpl.
  rewrite <- (map_map (phi sigma) (fun x => x / _)), Rsum_div.
  pose proof (kernel_total_pos sigma lw H). field; lra.
Qed.

(** A weighted mean lies between the bounds of what it averages. *)
Lemma weighted_mean_bounds (w : list (Z * R)) (g : Z * R -> R) m M :
  Forall (fun dw => 0 < snd dw) w ->
  (forall dw, In dw w -> m <= g dw <= M) ->
  m * Rsum (map snd w) <= Rsum (map (fun dw => snd dw * g dw) w)
    <= M * Rsum (map snd w).
Proof.
  induction 1 as [|dw w Hdw Hw IH]; intros Hg; simpl; [lra|].
  destruct (Hg dw (or_introl eq_refl)) as [G1 G2].
  destruct IH as [I1 I2]; [intros; apply Hg; now right|].
  split; nra.
Qed.

Lemma correlate1d_bounds sigma n line i m M :
  (0 < n)%nat -> (0 <= kernel_radius sigma)%Z ->
  (forall i', (i' < n)%nat -> m <= line i' <= M) ->
  m <= correlate1d (gaussian_kernel1d sigma (kernel_radius sigma)) n line i <= M.
Proof.
  intros Hn Hr Hline; unfold correlate1d.
  pose proof (weighted_mean_bounds (gaussian_kernel1d sigma (kernel_radius sigma))
                (fun dw => line (reflect n (Z.of_nat i + fst dw))) m M
                (kernel_weights_pos _ _ Hr)) as B.
  rewrite kernel_weights_sum in B by exact Hr.
  rewrite !Rmult_1_r in B; apply B.
  intros dw _; apply Hline, reflect_lt, Hn.
Qed.

Lemma has_shape_shape n0 n1 n2 v :
  has_shape n0 n1 n2 v -> (0 < n0)%nat -> (0 < n1)%nat ->
  shape v = (n0, n1, n2).
Proof.
  intros Hs H0 H1; unfold shape.
  destruct (has_shape_nth_plane _ _ _ _ _ Hs H0) as [Hp _].
  rewrite (has_shape_nth_row _ _ _ _ _ _ Hs H0 H1), Hp.
  now destruct Hs as [-> _].
Qed.

Lemma gaussian_filter1d_shape n0 n1 n2 v sigma axis :
  has_shape n0 n1 n2 v -> (0 < n0)%nat -> (0 < n1)%nat ->
  has_shape n0 n1 n2 (gaussian_filter1d v sigma axis).
Proof.
  intros Hs H0 H1; unfold gaussian_filter1d.
  rewrite (has_shape_shape _ _ _ _ Hs H0 H1).
  destruct axis as [|[|axis]]; apply tabulate3_shape.
Qed.

Lemma gaussian_filter1d_bounded n0 n1 n2 v sigma axis m M :
  has_shape n0 n1 n2 v -> (0 < n0)%nat -> (0 < n1)%nat ->
  (0 <= kernel_radius sigma)%Z ->
  vol_bounded n0 n1 n2 m M v ->
  vol_bounded n0 n1 n2 m M (gaussian_filter1d v sigma axis).
Proof.
  intros Hs H0 H1 Hr Hb i j k Hi Hj Hk; unfold gaussian_filter1d.
  rewrite (has_shape_shape _ _ _ _ Hs H0 H1).
  destruct axis as [|[|axis]]; rewrite tabulate3_get by assumption;
    apply correlate1d_bounds; try assumption; try lia;
    intros; apply Hb; assumption.
Qed.

Lemma gaussian_filter_shape n0 n1 n2 v sigma :
  has_shape n0 n1 n2 v -> (0 < n0)%nat -> (0 < n1)%nat ->
  has_shape n0 n1 n2 (gaussian_filter v sigma).
Proof.
  intros Hs H0 H1; unfold gaussian_filter.
  destruct (Rlt_dec _ _); [|exact Hs].
  repeat apply gaussian_filter1d_shape; assumption.
Qed.

Lemma gaussian_filter_bounded n0 n1 n2 v sigma m M :
  has_shape n0 n1 n2 v -> (0 < n0)%nat -> (0 < n1)%nat ->
  (0 <= kernel_radius sigma)%Z ->
  vol_bounded n0 n1 n2 m M v ->
  vol_bounded n0 n1 n2 m M (gaussian_filter v sigma).
Proof.
  intros Hs H0 H1 Hr Hb; unfold gaussian_filter.
  destruct (Rlt_dec _ _); [|exact Hb].
  repeat first [ apply gaussian_filter1d_bounded
               | apply gaussian_filter1d_shape | assumption ].
Qed.

Lemma kernel_radius_half : kernel_radius (/ 2) = 2%Z.
Proof.
  unfold kernel_radius; symmetry; apply Int_part_spec; lra.
Qed.

End Smoothing.

(* ================================================================== *)
(** ** The stages of generate_surface *)
(* ================================================================== *)

Section PipelineFacts.

Variable tri_table : nat -> list (nat * nat * nat).

(** [generate_surface] is its three progress lines followed by the stages:
    spacing, extraction on the smoothed samples, coordinate mapping. *)
Lemma generate_surface_stages resolution bounds iso_value con :
  generate_surface tri_table resolution bounds iso_value con =
  match axis_spacing resolution bounds with
  | Raise e => (con ++ progress resolution, Raise e)
  | Ok spacing =>
      match marching_cubes tri_table (smoothed_volume resolution bounds)
              iso_value spacing with
      | Raise e => (con ++ progress resolution, Raise e)
      | Ok mesh =>
          coordinate_mapper (fst bounds) mesh (con ++ progress resolution)
      end
  end.
Proof.
  unfold generate_surface, axis_spacing, smoothed_volume, sample_volume, axis,
    progress, coordinate_mapper.
  unfold meshgrid, bind, print, lift, ret; cbn [fst snd].
  rewrite <- !app_assoc; cbn [app].
  destruct (getitem (linspace (fst bounds) (snd bounds) resolution) 1)
    as [x1|e1]; [|reflexivity].
  destruct (getitem (linspace (fst bounds) (snd bounds) resolution) 0)
    as [x0|e0]; [|reflexivity].
  destruct (marching_cubes _ _ _ _) as [[verts faces]|e]; reflexivity.
Qed.

End PipelineFacts.

(* ================================================================== *)
(** ** The data range of a volume *)
(* ================================================================== *)

Section RangeFacts.

Lemma fold_min_le l : forall a x, In x (a :: l) -> fold_left Rmin l a <= x.
Proof.
  induction l as [|b l IH]; intros a x Hx; simpl in *.
  - destruct Hx as [<-|[]]; lra.
  - destruct Hx as [<-|[<-|Hx]].
    + apply Rle_trans with (Rmin a b); [apply IH; now left|apply Rmin_l].
    + apply Rle_trans with (Rmin a b); [apply IH; now left|apply Rmin_r].
    + apply IH; now right.
Qed.

Lemma fold_max_ge l : forall a x, In x (a :: l) -> x <= fold_left Rmax l a.
Proof.
  induction l as [|b l IH]; intros a x Hx; simpl in *.
  - destruct Hx as [<-|[]]; lra.
  - destruct Hx as [<-|[<-|Hx]].
    + apply Rle_trans with (Rmax a b); [apply Rmax_l|apply IH; now left].
    + apply Rle_trans with (Rmax a b); [apply Rmax_r|apply IH; now left].
    + apply IH; now right.
Qed.

Lemma fold_min_ge l m : forall a, (forall x, In x (a :: l) -> m <= x) ->
  m <= fold_left Rmin l a.
Proof.
  induction l as [|b l IH]; intros a H; simpl.
  - apply H; now left.
  - apply IH; intros x [<-|Hx].
    + apply Rmin_glb; apply H; simpl; auto.
    + apply H; simpl; auto.
Qed.

Lemma fold_max_le l M : forall a, (forall x, In x (a :: l) -> x <= M) ->
  fold_left Rmax l a <= M.
Proof.
  induction l as [|b l IH]; intros a H; simpl.
  - apply H; now left.
  - apply IH; intros x [<-|Hx].
    + apply Rmax_lub; apply H; simpl; auto.
    + apply H; simpl; auto.
Qed.

Lemma vol_get_in n0 n1 n2 v i j k :
  has_shape n0 n1 n2 v -> (i < n0)%nat -> (j < n1)%nat -> (k < n2)%nat ->
  In (vol_get v i j k) (concat (concat v)).
Proof.
  intros Hs Hi Hj Hk; unfold vol_get.
  destruct (has_shape_nth_plane _ _ _ _ _ Hs Hi) as [Hp _].
  pose proof (has_shape_nth_row _ _ _ _ _ _ Hs Hi Hj) as Hr.
  apply in_concat; exists (nth j (nth i v []) []); split.
  - apply in_concat; exists (nth i v []); split.
    + apply nth_In; destruct Hs; lia.
    + apply nth_In; lia.
  - apply nth_In; lia.
Qed.

Lemma in_vol_get n0 n1 n2 v x :
  has_shape n0 n1 n2 v -> In x (concat (concat v)) ->
  exists i j k, (i < n0)%nat /\ (j < n1)%nat /\ (k < n2)%nat /\
                x = vol_get v i j k.
Proof.
  intros Hs Hx.
  apply in_concat in Hx as (r & Hr & Hx).
  apply in_concat in Hr as (p & Hp & Hr).
  destruct (In_nth _ _ [] Hp) as (i & Hi & <-).
  destruct (In_nth _ _ [] Hr) as (j & Hj & <-).
  destruct (In_nth _ _ 0 Hx) as (k & Hk & <-).
  assert (Hi' : (i < n0)%nat) by (destruct Hs; lia).
  destruct (has_shape_nth_plane _ _ _ _ _ Hs Hi') as [Hlp _].
  assert (Hj' : (j < n1)%nat) by lia.
  rewrite (has_shape_nth_row _ _ _ _ _ _ Hs Hi' Hj') in Hk.
  now exists i, j, k.
Qed.

Lemma amin_le_entry n0 n1 n2 v i j k :
  has_shape n0 n1 n2 v -> (i < n0)%nat -> (j < n1)%nat -> (k < n2)%nat ->
  amin v <= vol_get v i j k <= amax v.
Proof.
  intros Hs Hi Hj Hk.
  pose proof (vol_get_in _ _ _ _ _ _ _ Hs Hi Hj Hk) as Hin.
  unfold amin, amax; destruct (concat (concat v)) as [|a l]; [destruct Hin|].
  split; [now apply fold_min_le|now apply fold_max_ge].
Qed.

Lemma vol_bounded_range n0 n1 n2 v m M :
  has_shape n0 n1 n2 v -> (0 < n0)%nat -> (0 < n1)%nat -> (0 < n2)%nat ->
  vol_bounded n0 n1 n2 m M v -> m <= amin v /\ amax v <= M.
Proof.
  intros Hs H0 H1 H2 Hb.
  pose proof (vol_get_in _ _ _ _ _ _ _ Hs H0 H1 H2) as Hne.
  assert (Hall : forall x, In x (concat (concat v)) -> m <= x <= M).
  { intros x Hx.
    destruct (in_vol_get _ _ _ _ _ Hs Hx) as (i & j & k & Hi & Hj & Hk & ->).
    now apply Hb. }
  unfold amin, amax; destruct (concat (concat v)) as [|a l]; [destruct Hne|].
  split; [apply fold_min_ge|apply fold_max_le]; intros x Hx; now apply Hall.
Qed.

End RangeFacts.

(* ================================================================== *)
(** ** Signs and bounds of the field *)
(* ================================================================== *)

Section FieldFacts.

Lemma PI_lt_4 : PI < 4.
Proof.
  pose proof (PI_ineq 1) as [_ H].
  unfold sum_f_R0, tg_alt, PI_tg in H; simpl in H.
  lra.
Qed.

Lemma cos_1_pos : 0 < cos 1.
Proof. pose proof PI2_1; apply cos_gt_0; lra. Qed.

Lemma sin_1_pos : 0 < sin 1.
Proof. pose proof PI2_1; apply sin_gt_0; lra. Qed.

Lemma sin_2_pos : 0 < sin 2.
Proof. pose proof PI2_3_2; apply sin_gt_0; lra. Qed.

Lemma cos_2_neg : cos 2 < 0.
Proof. pose proof PI_lt_4; pose proof PI2_3_2; apply cos_lt_0; lra. Qed.

Lemma cos_4_neg : cos 4 < 0.
Proof. pose proof PI_lt_4; pose proof PI2_3_2; apply cos_lt_0; lra. Qed.

Lemma product_bound a b c :
  -1 <= a <= 1 -> -1 <= b <= 1 -> -1 <= c <= 1 -> -1 <= a * b * c <= 1.
Proof.
  intros Ha Hb Hc.
  assert (Hab : -1 <= a * b <= 1) by (split; nra).
  split; nra.
Qed.

Lemma field_bound x y z : -3 <= field x y z <= 3.
Proof.
  unfold field.
  pose proof (product_bound _ _ _ (COS_bound (2 * x)) (SIN_bound y) (COS_bound z)).
  pose proof (product_bound _ _ _ (COS_bound (2 * y)) (SIN_bound z) (COS_bound x)).
  pose proof (product_bound _ _ _ (COS_bound (2 * z)) (SIN_bound x) (COS_bound y)).
  lra.
Qed.

End FieldFacts.

(* ================================================================== *)
(** ** Stage facts: spacing, smoothed volume, level check *)
(* ================================================================== *)

Section StageFacts.

Variable tri_table : nat -> list (nat * nat * nat).

Lemma getitem_inside x i :
  (i < length x)%nat -> getitem x i = Ok (nth i x 0).
Proof.
  intros Hi; unfold getitem.
  destruct (nth_error x i) eqn:E.
  - now rewrite (nth_error_nth _ _ 0 E).
  - apply nth_error_None in E; lia.
Qed.

Lemma axis_spacing_ok resolution lo hi :
  (2 <= resolution)%nat ->
  axis_spacing resolution (lo, hi) =
  Ok ((hi - lo) / INR (resolution - 1), (hi - lo) / INR (resolution - 1),
      (hi - lo) / INR (resolution - 1)).
Proof.
  intros Hn; unfold axis_spacing, axis; cbn [fst snd].
  rewrite !getitem_inside by (rewrite linspace_length; lia).
  rewrite !linspace_nth by lia.
  now rewrite lattice_step.
Qed.

Lemma axis_spacing_single lo hi :
  axis_spacing 1 (lo, hi) =
  Raise (IndexError "index 1 is out of bounds for axis 0 with size 1").
Proof. reflexivity. Qed.

Lemma sample_volume_bounded n bounds :
  vol_bounded n n n (-3) 3 (sample_volume n bounds).
Proof.
  intros i j k Hi Hj Hk.
  rewrite sample_volume_entry by assumption; apply field_bound.
Qed.

Lemma smoothed_volume_shape n bounds :
  (0 < n)%nat -> has_shape n n n (smoothed_volume n bounds).
Proof.
  intros Hn; apply gaussian_filter_shape; auto using sample_volume_shape.
Qed.

Lemma smoothed_volume_bounded n bounds m M :
  (0 < n)%nat ->
  vol_bounded n n n m M (sample_volume n bounds) ->
  vol_bounded n n n m M (smoothed_volume n bounds).
Proof.
  intros Hn Hb; apply gaussian_filter_bounded;
    auto using sample_volume_shape.
  rewrite kernel_radius_half; lia.
Qed.

Lemma marching_cubes_level_check n v level spacing :
  has_shape n n n v -> (2 <= n)%nat ->
  level < amin v \/ amax v < level ->
  marching_cubes tri_table v level spacing =
  Raise (ValueError "Surface level must be within volume data range.").
Proof.
  intros Hs Hn Hout; unfold marching_cubes.
  rewrite (has_shape_shape n n n) by (assumption || lia).
  replace (n <? 2)%nat with false by (symmetry; apply Nat.ltb_ge; lia).
  cbn [orb].
  destruct (Rlt_dec level (amin v)); [reflexivity|].
  destruct (Rlt_dec (amax v) level); [reflexivity|].
  destruct Hout; contradiction.
Qed.

(** A successful call of the extractor returns at least one vertex. *)
Lemma marching_cubes_nonempty v level spacing verts faces :
  marching_cubes tri_table v level spacing = Ok (verts, faces) ->
  verts <> [] /\ (verts, faces) = extract tri_table v level spacing.
Proof.
  unfold marching_cubes.
  destruct (shape v) as [[n0 n1] n2].
  destruct (_ || _)%bool; [discriminate|].
  destruct (Rlt_dec _ _); [discriminate|].
  destruct (Rlt_dec _ _); [discriminate|].
  destruct (extract tri_table v level spacing) as [vs fs] eqn:E; cbn [fst].
  destruct vs; [discriminate|].
  intros [= <- <-]; split; [discriminate|reflexivity].
Qed.

Lemma add_to_columns lo verts :
  add_to_column 2 lo (add_to_column 1 lo (add_to_column 0 lo verts)) =
  map (fun '(x, y, z) => (x + lo, y + lo, z + lo)) verts.
Proof.
  unfold add_to_column; rewrite !map_map.
  apply map_ext; intros [[x y] z]; reflexivity.
Qed.

End StageFacts.

(* ================================================================== *)
(** ** The kernel of sigma = 0.5 on a line of two samples *)
(* ================================================================== *)

Section KernelHalf.

Lemma phi_even sigma d : phi sigma (- d) = phi sigma d.
Proof. unfold phi; rewrite opp_IZR; f_equal; ring. Qed.

Lemma kernel_half_eq :
  gaussian_kernel1d (/ 2) 2 =
  map (fun d => (d, phi (/ 2) d / kernel_total)) [-2; -1; 0; 1; 2]%Z.
Proof. reflexivity. Qed.

Lemma kernel_total_pos_half : 0 < kernel_total.
Proof. apply (kernel_total_pos (/ 2) 2); lia. Qed.

Lemma kernel_total_eq :
  kernel_total = phi (/ 2) 0 + 2 * phi (/ 2) 1 + 2 * phi (/ 2) 2.
Proof.
  unfold kernel_total; cbn [map Rsum fold_right].
  change (-2)%Z with (- (2))%Z; change (-1)%Z with (- (1))%Z.
  rewrite !phi_even; ring.
Qed.

Lemma w_sum : w_same + w_other = 1.
Proof.
  unfold w_same, w_other; pose proof kernel_total_pos_half.
  rewrite kernel_total_eq in *; field; lra.
Qed.

Lemma phi_half_0 : phi (/ 2) 0 = 1.
Proof.
  unfold phi; replace (- / 2 / (/ 2 * / 2) * (0 * 0)) with 0 by field.
  apply exp_0.
Qed.

Lemma phi_half_2 : phi (/ 2) 2 < / 9.
Proof.
  unfold phi; replace (- / 2 / (/ 2 * / 2) * (2 * 2)) with (Ropp 8) by field.
  rewrite exp_Ropp.
  apply Rinv_lt_contravar; [pose proof (exp_pos 8); lra|].
  pose proof (exp_ineq1 8 ltac:(lra)); lra.
Qed.

(** The filter shrinks the difference of the two samples by a factor
    strictly between 0 and 1. *)
Lemma w_diff_range : 0 < w_same - w_other < 1.
Proof.
  pose proof kernel_total_pos_half as HS.
  pose proof (phi_pos (/ 2) 1); pose proof (phi_pos (/ 2) 2).
  pose proof phi_half_2; pose proof phi_half_0 as Hphi0.
  assert (E : w_same - w_other = (phi (/ 2) 0 - 2 * phi (/ 2) 2) / kernel_total)
    by (unfold w_same, w_other; field; lra).
  rewrite E; split.
  - apply Rdiv_lt_0_compat; lra.
  - apply Rmult_lt_reg_r with kernel_total; [exact HS|].
    unfold Rdiv; rewrite Rmult_assoc, Rinv_l by lra.
    rewrite kernel_total_eq; lra.
Qed.

Ltac eval_reflect :=
  repeat match goal with
    | |- context [reflect ?n ?z] =>
        let r := eval vm_compute in (reflect n z) in
        change (reflect n z) with r
    end.

Lemma correlate1d_pair line i :
  (i < 2)%nat ->
  correlate1d (gaussian_kernel1d (/ 2) 2) 2 line i =
  w_same * line i + w_other * line (1 - i)%nat.
Proof.
  intros Hi; unfold correlate1d; rewrite kernel_half_eq.
  cbn [map Rsum fold_right fst snd].
  change (-2)%Z with (- (2))%Z; change (-1)%Z with (- (1))%Z.
  rewrite !phi_even.
  destruct i as [|[|i]]; [| |lia]; eval_reflect; cbn [Nat.sub];
    unfold w_same, w_other; pose proof kernel_total_pos_half; field; lra.
Qed.

(** One pass over a 2x2x2 volume, entry by entry. *)
Lemma gaussian_filter1d_pair v axis i j k :
  has_shape 2 2 2 v -> (i < 2)%nat -> (j < 2)%nat -> (k < 2)%nat ->
  vol_get (gaussian_filter1d v (/ 2) axis) i j k =
  match axis with
  | 0%nat => w_same * vol_get v i j k + w_other * vol_get v (1 - i) j k
  | 1%nat => w_same * vol_get v i j k + w_other * vol_get v i (1 - j) k
  | _ => w_same * vol_get v i j k + w_other * vol_get v i j (1 - k)
  end.
Proof.
  intros Hs Hi Hj Hk; unfold gaussian_filter1d.
  rewrite (has_shape_shape 2 2 2), kernel_radius_half by (assumption || lia).
  destruct axis as [|[|axis]]; rewrite tabulate3_get by assumption;
    now rewrite correlate1d_pair.
Qed.

End KernelHalf.

(* ================================================================== *)
(** ** Mesh invariants of the extraction *)
(* ================================================================== *)

Section ExtractionFacts.

Variable tri_table : nat -> list (nat * nat * nat).

Example cubes_of_three : length (cubes 3 3 3) = 8%nat.
Proof. reflexivity. Qed.

Example cubes_of_one : cubes 1 1 1 = [].
Proof. reflexivity. Qed.

Lemma fold_emit_verts tris : forall mesh,
  fst (fold_left emit tris mesh) = fst mesh ++ triangle_vertices tris.
Proof.
  induction tris as [|[[a b] c] tris IH]; intros [verts faces]; simpl.
  - now rewrite app_nil_r.
  - rewrite IH; cbn [fst]. now rewrite <- app_assoc.
Qed.

Lemma fold_emit_faces tris : forall mesh,
  length (snd (fold_left emit tris mesh)) =
  (length (snd mesh) + length tris)%nat.
Proof.
  induction tris as [|[[a b] c] tris IH]; intros [verts faces]; simpl.
  - lia.
  - rewrite IH; cbn [snd]. rewrite length_app; simpl; lia.
Qed.

Lemma triangle_vertices_length tris :
  length (triangle_vertices tris) = (3 * length tris)%nat.
Proof.
  induction tris as [|[[a b] c] tris IH]; simpl in *; lia.
Qed.

Lemma clamp01_range t : 0 <= clamp01 t <= 1.
Proof.
  unfold clamp01, Rmax, Rmin.
  destruct (Rle_dec 1 t); destruct (Rle_dec 0 _); lra.
Qed.

Lemma lerp_between a b t :
  0 <= t <= 1 -> Rmin a b <= lerp a b t <= Rmax a b.
Proof.
  intros Ht; unfold lerp, Rmin, Rmax; destruct (Rle_dec a b); nra.
Qed.

(** On a cut edge the parameter is the unclamped quotient and the
    interpolated value is the isovalue. *)
Lemma interp_t_cut iso v0 v1 :
  (v0 < iso <= v1 \/ v1 < iso <= v0) ->
  interp_t iso v0 v1 = (iso - v0) / (v1 - v0) /\
  lerp v0 v1 (interp_t iso v0 v1) = iso.
Proof.
  intros Hcut.
  assert (Hne : v1 - v0 <> 0) by lra.
  assert (Ht : 0 <= (iso - v0) / (v1 - v0) <= 1).
  { destruct Hcut as [H|H].
    - split; [apply Rle_mult_inv_pos; lra|].
      apply Rmult_le_reg_r with (v1 - v0); [lra|].
      unfold Rdiv; rewrite Rmult_assoc, Rinv_l by lra; lra.
    - replace ((iso - v0) / (v1 - v0)) with ((v0 - iso) / (v0 - v1))
        by (field; lra).
      split; [apply Rle_mult_inv_pos; lra|].
      apply Rmult_le_reg_r with (v0 - v1); [lra|].
      unfold Rdiv; rewrite Rmult_assoc, Rinv_l by lra; lra. }
  assert (E : interp_t iso v0 v1 = (iso - v0) / (v1 - v0)).
  { unfold interp_t, clamp01.
    rewrite Rmin_right by lra. now rewrite Rmax_right by lra. }
  split; [exact E|]. rewrite E; unfold lerp; field; lra.
Qed.

Lemma edge_corners_small e :
  (fst (edge_corners e) < 8)%nat /\ (snd (edge_corners e) < 8)%nat.
Proof. do 12 (destruct e as [|e]; [simpl; lia|]); simpl; lia. Qed.

Lemma edge_vertex_last vol iso spacing cube e :
  (12 <= e)%nat ->
  edge_vertex vol iso spacing cube e = edge_vertex vol iso spacing cube 11.
Proof. do 12 (destruct e as [|e]; [lia|]); reflexivity. Qed.

Ltac destruct_classes vol iso cube :=
  destruct (inside iso (corner_value vol cube 0)),
           (inside iso (corner_value vol cube 1)),
           (inside iso (corner_value vol cube 2)),
           (inside iso (corner_value vol cube 3)),
           (inside iso (corner_value vol cube 4)),
           (inside iso (corner_value vol cube 5)),
           (inside iso (corner_value vol cube 6)),
           (inside iso (corner_value vol cube 7)).

Lemma cube_config_small vol iso cube :
  (cube_config vol iso cube < 256)%nat.
Proof.
  unfold cube_config; cbn [seq fold_right].
  destruct_classes vol iso cube; apply Nat.ltb_lt; reflexivity.
Qed.

(** Bit [c] of the configuration index is the class of corner [c]. *)
Lemma config_testbit vol iso cube c :
  (c < 8)%nat ->
  Nat.testbit (cube_config vol iso cube) c
  = inside iso (corner_value vol cube c).
Proof.
  intros Hc; unfold cube_config; cbn [seq fold_right].
  do 8 (destruct c as [|c];
        [destruct_classes vol iso cube; reflexivity|]).
  lia.
Qed.

(** The vertex of an edge is placed on it as [placed_on_edge] has it. *)
Lemma edge_vertex_placed vol iso spacing cube e :
  placed_on_edge vol iso spacing cube e (edge_vertex vol iso spacing cube e).
Proof.
  unfold placed_on_edge, edge_vertex; cbv zeta.
  destruct (edge_corners e) as [c0 c1]; cbn [fst snd].
  set (v0 := corner_value vol cube c0); set (v1 := corner_value vol cube c1).
  change (Rmax 0 (Rmin 1 ((iso - v0) / (v1 - v0)))) with (interp_t iso v0 v1).
  pose proof (clamp01_range ((iso - v0) / (v1 - v0))) as Ht.
  change (clamp01 ((iso - v0) / (v1 - v0))) with (interp_t iso v0 v1) in Ht.
  set (t := interp_t iso v0 v1) in *.
  destruct (corner_index cube c0) as [[i0 j0] k0].
  destruct (corner_index cube c1) as [[i1 j1] k1].
  destruct spacing as [[sx sy] sz].
  assert (B : forall a b s, between (a * s) (b * s) (lerp a b t * s)).
  { intros a b s; unfold between.
    replace (lerp a b t * s) with (lerp (a * s) (b * s) t)
      by (unfold lerp; ring).
    now apply lerp_between. }
  split; [exact Ht|split].
  - unfold on_segment, grid_point.
    split; [repeat split; unfold lerp; ring|].
    split; [apply B|split; apply B].
  - now apply lerp_between.
Qed.

(** An edge whose ends are classified differently is cut. *)
Lemma cut_edge_of_classes vol iso cube e :
  inside iso (corner_value vol cube (fst (edge_corners e)))
  <> inside iso (corner_value vol cube (snd (edge_corners e))) ->
  cut_edge vol iso cube e.
Proof.
  unfold cut_edge; cbv zeta.
  set (v0 := corner_value vol cube (fst (edge_corners e))).
  set (v1 := corner_value vol cube (snd (edge_corners e))).
  intros Hc.
  assert (Hcut : v0 < iso <= v1 \/ v1 < iso <= v0).
  { unfold inside in Hc.
    destruct (Rlt_dec v0 iso), (Rlt_dec v1 iso); try congruence; lra. }
  destruct (interp_t_cut iso v0 v1 Hcut) as [E1 E2].
  rewrite E1 in E2.
  split; [exact Hcut|split; [exact E1|exact E2]].
Qed.

Lemma cube_triangles_interpolated vol iso spacing cube v :
  In cube (let '(n0, n1, n2) := shape vol in cubes n0 n1 n2) ->
  In v (triangle_vertices (cube_triangles tri_table vol iso spacing cube)) ->
  interpolated vol iso spacing v /\
  (table_cuts tri_table -> interpolated_on_cut vol iso spacing v).
Proof.
  intros Hcube Hv; unfold cube_triangles in Hv.
  destruct (_ || _)%bool; [destruct Hv|].
  unfold triangle_vertices in Hv.
  apply in_flat_map in Hv as ([[a b] c] & Htri & Hv).
  apply in_map_iff in Htri as ([[e0 e1] e2] & [= <- <- <-] & Hrow).
  assert (G : exists e, (e = e0 \/ e = e1 \/ e = e2) /\
                        v = edge_vertex vol iso spacing cube e).
  { destruct Hv as [<-|[<-|[<-|[]]]];
      [exists e0|exists e1|exists e2]; auto. }
  destruct G as (e & He & ->); split.
  - destruct (le_lt_dec 12 e) as [Hbig|Hsmall].
    + rewrite (edge_vertex_last _ _ _ _ _ Hbig).
      exists cube, 11%nat; split; [exact Hcube|split; [lia|]].
      apply edge_vertex_placed.
    + exists cube, e; split; [exact Hcube|split; [exact Hsmall|]].
      apply edge_vertex_placed.
  - intros Htable.
    destruct (Htable _ _ _ _ e (cube_config_small vol iso cube) Hrow He)
      as [Hsmall Hbits].
    destruct (edge_corners_small e) as [H0 H1].
    rewrite !config_testbit in Hbits by assumption.
    exists cube, e; split; [exact Hcube|split; [exact Hsmall|split]].
    + now apply cut_edge_of_classes.
    + apply edge_vertex_placed.
Qed.

Lemma triangle_vertices_flat_map {A} (f : A -> list (Vertex * Vertex * Vertex))
  (l : list A) v :
  In v (triangle_vertices (flat_map f l)) ->
  exists x, In x l /\ In v (triangle_vertices (f x)).
Proof.
  unfold triangle_vertices; intros Hv.
  apply in_flat_map in Hv as (tri & Htri & Hv).
  apply in_flat_map in Htri as (x & Hx & Htri).
  exists x; split; [exact Hx|].
  apply in_flat_map; now exists tri.
Qed.

(** Every extracted vertex is placed on an edge of a lattice cube, and on
    a cut edge when the table names cut edges only. *)
Lemma extract_interpolated vol iso spacing :
  Forall (interpolated vol iso spacing)
         (fst (extract tri_table vol iso spacing)) /\
  (table_cuts tri_table ->
   Forall (interpolated_on_cut vol iso spacing)
          (fst (extract tri_table vol iso spacing))).
Proof.
  assert (G : forall v, In v (fst (extract tri_table vol iso spacing)) ->
              interpolated vol iso spacing v /\
              (table_cuts tri_table -> interpolated_on_cut vol iso spacing v)).
  { intros v Hv; unfold extract in Hv.
    destruct (shape vol) as [[n0 n1] n2] eqn:Es.
    rewrite fold_emit_verts in Hv; cbn [fst app] in Hv.
    apply triangle_vertices_flat_map in Hv as (cube & Hcube & Hv).
    apply (cube_triangles_interpolated vol iso spacing cube); [|exact Hv].
    now rewrite Es. }
  split; [|intros Htable]; apply Forall_forall; intros v Hv;
    destruct (G v Hv) as [H1 H2]; auto.
Qed.

(** The three rows of [table_rows] name cut edges only. *)
Lemma table_rows_cuts : table_cuts table_rows.
Proof.
  intros cfg e0 e1 e2 e _ Hrow He; unfold table_rows in Hrow.
  destruct (Nat.eqb_spec cfg 1) as [->|_];
    [|destruct (Nat.eqb_spec cfg 254) as [->|_];
      [|destruct (Nat.eqb_spec cfg 228) as [->|_]; [|destruct Hrow]]];
    repeat (destruct Hrow as [[= <- <- <-]|Hrow]; [|]);
    try (destruct Hrow);
    destruct He as [-> | [-> | ->]];
    (split; [lia|discriminate]).
Qed.

End ExtractionFacts.

(* ================================================================== *)
(** ** Resolution 2 on bounds (-1, 1): the single cube *)
(* ================================================================== *)

Section SingleCube.

Variable tri_table : nat -> list (nat * nat * nat).

Lemma unit_sample_neg : unit_sample < 0.
Proof.
  unfold unit_sample.
  pose proof cos_2_neg; pose proof sin_1_pos; pose proof cos_1_pos.
  assert (0 < sin 1 * cos 1) by nra. nra.
Qed.

Lemma field_sgn i j k :
  field (sgn i) (sgn j) (sgn k) = unit_sample * (sgn i + sgn j + sgn k).
Proof.
  unfold field, unit_sample.
  assert (C2 : forall n, cos (2 * sgn n) = cos 2).
  { intros [|n]; simpl; [|f_equal; ring].
    replace (2 * - (1)) with (- (2)) by ring; apply cos_neg. }
  assert (C1 : forall n, cos (sgn n) = cos 1).
  { intros [|n]; simpl; [apply cos_neg|reflexivity]. }
  assert (S1 : forall n, sin (sgn n) = sgn n * sin 1).
  { intros [|n]; simpl; [rewrite sin_neg|]; ring. }
  rewrite !C2, !C1, !S1; ring.
Qed.

Lemma axis_pair i : (i < 2)%nat -> nth i (axis (-1, 1) 2) 0 = sgn i.
Proof.
  intros Hi; unfold axis; cbn [fst snd].
  rewrite linspace_nth by lia.
  destruct i as [|[|i]]; [| |lia]; unfold lattice; simpl; lra.
Qed.

Lemma sample_pair_entry i j k :
  (i < 2)%nat -> (j < 2)%nat -> (k < 2)%nat ->
  vol_get (sample_volume 2 (-1, 1)) i j k =
  unit_sample * (sgn i + sgn j + sgn k).
Proof.
  intros Hi Hj Hk.
  rewrite sample_volume_entry, !axis_pair by assumption.
  apply field_sgn.
Qed.

Lemma sgn_flip i : (i < 2)%nat -> sgn (1 - i) = - sgn i.
Proof. destruct i as [|[|i]]; simpl; intros; try lia; lra. Qed.

(** A pass keeps the samples linear in the three signs and shrinks the
    coefficient of its own axis. *)
Lemma pass_linear v axis a b c :
  has_shape 2 2 2 v ->
  (forall i j k, (i < 2)%nat -> (j < 2)%nat -> (k < 2)%nat ->
     vol_get v i j k = unit_sample * (a * sgn i + b * sgn j + c * sgn k)) ->
  forall i j k, (i < 2)%nat -> (j < 2)%nat -> (k < 2)%nat ->
    vol_get (gaussian_filter1d v (/ 2) axis) i j k =
    match axis with
    | 0%nat => unit_sample
               * ((w_same - w_other) * a * sgn i + b * sgn j + c * sgn k)
    | 1%nat => unit_sample
               * (a * sgn i + (w_same - w_other) * b * sgn j + c * sgn k)
    | _ => unit_sample
           * (a * sgn i + b * sgn j + (w_same - w_other) * c * sgn k)
    end.
Proof.
  intros Hs Hv i j k Hi Hj Hk.
  rewrite gaussian_filter1d_pair by assumption.
  pose proof w_sum as Hw.
  destruct axis as [|[|axis]]; rewrite !Hv by lia;
    rewrite sgn_flip by assumption;
    replace w_same with (1 - w_other) by lra; ring.
Qed.

Lemma sigma_half_filters : / 10 ^ 15 < / 2.
Proof.
  apply Rinv_lt_contravar; [|].
  - apply Rmult_lt_0_compat; [lra|apply pow_lt; lra].
  - replace 2 with (2 ^ 1) at 1 by ring.
    apply Rlt_le_trans with (10 ^ 1); [simpl; lra|].
    apply Rle_pow; [lra|lia].
Qed.

Lemma smoothed_pair_entry i j k :
  (i < 2)%nat -> (j < 2)%nat -> (k < 2)%nat ->
  vol_get (smoothed_volume 2 (-1, 1)) i j k =
  (w_same - w_other) * (unit_sample * (sgn i + sgn j + sgn k)).
Proof.
  intros Hi Hj Hk; unfold smoothed_volume, gaussian_filter.
  destruct (Rlt_dec _ _) as [_|N]; [|destruct (N sigma_half_filters)].
  pose proof (sample_volume_shape 2 (-1, 1)) as Hs.
  assert (H0 : forall i j k, (i < 2)%nat -> (j < 2)%nat -> (k < 2)%nat ->
    vol_get (sample_volume 2 (-1, 1)) i j k =
    unit_sample * (1 * sgn i + 1 * sgn j + 1 * sgn k))
    by (intros; rewrite sample_pair_entry by assumption; ring).
  pose proof (pass_linear _ 0 _ _ _ Hs H0) as H1; cbv beta iota in H1.
  pose proof (pass_linear _ 1 _ _ _
                (gaussian_filter1d_shape 2 2 2 _ _ 0 Hs ltac:(lia) ltac:(lia))
                H1) as H2; cbv beta iota in H2.
  pose proof (pass_linear _ 2 _ _ _
                (gaussian_filter1d_shape 2 2 2 _ _ 1
                   (gaussian_filter1d_shape 2 2 2 _ _ 0 Hs ltac:(lia) ltac:(lia))
                   ltac:(lia) ltac:(lia))
                H2) as H3; cbv beta iota in H3.
  rewrite H3 by assumption; ring.
Qed.

Lemma inside_true iso v : v < iso -> inside iso v = true.
Proof. intros H; unfold inside; destruct (Rlt_dec v iso); tauto. Qed.

Lemma inside_false iso v : iso <= v -> inside iso v = false.
Proof. intros H; unfold inside; destruct (Rlt_dec v iso); [lra|reflexivity]. Qed.

(** The sign of a smoothed sample is opposite to the sign of the sum of its
    three coordinates. *)
Lemma smoothed_pair_sign i j k :
  (i < 2)%nat -> (j < 2)%nat -> (k < 2)%nat ->
  inside 0 (vol_get (smoothed_volume 2 (-1, 1)) i j k) =
  (2 <=? i + j + k)%nat.
Proof.
  intros Hi Hj Hk; rewrite smoothed_pair_entry by assumption.
  pose proof w_diff_range as [Hg _]; pose proof unit_sample_neg as HK.
  assert (P : forall s, 0 < s ->
            (w_same - w_other) * (unit_sample * s) < 0).
  { intros s Hs; assert (unit_sample * s < 0) by nra; nra. }
  assert (N : forall s, s < 0 ->
            0 <= (w_same - w_other) * (unit_sample * s)).
  { intros s Hs; assert (0 < unit_sample * s) by nra; nra. }
  destruct i as [|[|i]]; [| |lia]; destruct j as [|[|j]]; try lia;
    destruct k as [|[|k]]; try lia; cbn [sgn Nat.add Nat.leb];
    first [ apply inside_true, P; lra | apply inside_false, N; lra ].
Qed.

Lemma single_cube_config :
  cube_config (smoothed_volume 2 (-1, 1)) 0 (0, 0, 0)%nat = 228%nat.
Proof.
  unfold cube_config; cbn [seq fold_right].
  unfold corner_value, corner_index, corner_offset; cbn [Nat.add].
  rewrite !smoothed_pair_sign by lia.
  reflexivity.
Qed.

Lemma single_cube_range :
  amin (smoothed_volume 2 (-1, 1)) <= 0 <= amax (smoothed_volume 2 (-1, 1)).
Proof.
  pose proof (smoothed_volume_shape 2 (-1, 1) ltac:(lia)) as Hs.
  pose proof (amin_le_entry 2 2 2 _ 1 1 1 Hs ltac:(lia) ltac:(lia) ltac:(lia))
    as [L _].
  pose proof (amin_le_entry 2 2 2 _ 0 0 0 Hs ltac:(lia) ltac:(lia) ltac:(lia))
    as [_ U].
  rewrite smoothed_pair_entry in L, U by lia.
  pose proof w_diff_range as [Hg _]; pose proof unit_sample_neg as HK.
  cbn [sgn] in L, U.
  assert (0 < unit_sample * (- (1) + - (1) + - (1))) by nra.
  assert (unit_sample * (1 + 1 + 1) < 0) by nra.
  split; nra.
Qed.

Lemma single_cube_strict_range :
  amin (smoothed_volume 2 (-1, 1)) < 0 < amax (smoothed_volume 2 (-1, 1)).
Proof.
  pose proof (smoothed_volume_shape 2 (-1, 1) ltac:(lia)) as Hs.
  pose proof (amin_le_entry 2 2 2 _ 1 1 1 Hs ltac:(lia) ltac:(lia) ltac:(lia))
    as [L _].
  pose proof (amin_le_entry 2 2 2 _ 0 0 0 Hs ltac:(lia) ltac:(lia) ltac:(lia))
    as [_ U].
  rewrite smoothed_pair_entry in L, U by lia.
  pose proof w_diff_range as [Hg _]; pose proof unit_sample_neg as HK.
  cbn [sgn] in L, U.
  assert (0 < unit_sample * (- (1) + - (1) + - (1))) by nra.
  assert (unit_sample * (1 + 1 + 1) < 0) by nra.
  split; nra.
Qed.

(** The extraction at resolution 2 is that of the single cube. *)
Lemma single_cube_triangles iso spacing :
  extract tri_table (smoothed_volume 2 (-1, 1)) iso spacing =
  fold_left emit
    (cube_triangles tri_table (smoothed_volume 2 (-1, 1)) iso spacing
       (0, 0, 0)%nat)
    ([], []).
Proof.
  unfold extract.
  rewrite (has_shape_shape 2 2 2)
    by (try apply smoothed_volume_shape; lia).
  change (cubes 2 2 2) with [(0, 0, 0)%nat]; cbn [flat_map].
  now rewrite app_nil_r.
Qed.

(** At level 0 it reads row 228 of the table. *)
Lemma single_cube_extract spacing :
  extract tri_table (smoothed_volume 2 (-1, 1)) 0 spacing =
  fold_left emit
    (map (fun '(e0, e1, e2) =>
            (edge_vertex (smoothed_volume 2 (-1, 1)) 0 spacing (0, 0, 0)%nat e0,
             edge_vertex (smoothed_volume 2 (-1, 1)) 0 spacing (0, 0, 0)%nat e1,
             edge_vertex (smoothed_volume 2 (-1, 1)) 0 spacing (0, 0, 0)%nat e2))
         (tri_table 228%nat))
    ([], []).
Proof.
  rewrite single_cube_triangles; unfold cube_triangles.
  now rewrite single_cube_config.
Qed.

End SingleCube.

(* ================================================================== *)
(** ** Runs of generate_surface *)
(* ================================================================== *)

Section Runs.

Variable tri_table : nat -> list (nat * nat * nat).

Lemma coordinate_mapper_eq lo verts faces con :
  coordinate_mapper lo (verts, faces) con =
  (con, Ok (map (translate lo) verts, faces)).
Proof.
  unfold coordinate_mapper, ret; now rewrite add_to_columns.
Qed.

(** A successful run is a successful extraction on the smoothed samples,
    translated. *)
Lemma generate_surface_ok resolution bounds iso con con' verts faces :
  generate_surface tri_table resolution bounds iso con = (con', Ok (verts, faces)) ->
  exists spacing verts0,
    axis_spacing resolution bounds = Ok spacing /\
    marching_cubes tri_table (smoothed_volume resolution bounds) iso spacing
      = Ok (verts0, faces) /\
    verts = map (translate (fst bounds)) verts0 /\
    con' = con ++ progress resolution.
Proof.
  rewrite generate_surface_stages.
  destruct (axis_spacing resolution bounds) as [spacing|e] eqn:Es;
    [|discriminate].
  destruct (marching_cubes _ _ _ _) as [[verts0 faces0]|e] eqn:Em;
    [|discriminate].
  rewrite coordinate_mapper_eq; intros [= <- <- <-].
  exists spacing, verts0; auto.
Qed.

Lemma generate_surface_level_check resolution lo hi iso con :
  (2 <= resolution)%nat ->
  iso < amin (smoothed_volume resolution (lo, hi))
  \/ amax (smoothed_volume resolution (lo, hi)) < iso ->
  generate_surface tri_table resolution (lo, hi) iso con =
  (con ++ progress resolution,
   Raise (ValueError "Surface level must be within volume data range.")).
Proof.
  intros Hn Hout; rewrite generate_surface_stages, axis_spacing_ok by exact Hn.
  rewrite (marching_cubes_level_check _ resolution); auto.
  apply smoothed_volume_shape; lia.
Qed.

Lemma smoothed_volume_range n bounds :
  (0 < n)%nat ->
  -3 <= amin (smoothed_volume n bounds) /\ amax (smoothed_volume n bounds) <= 3.
Proof.
  intros Hn; apply (vol_bounded_range n n n); try assumption.
  - now apply smoothed_volume_shape.
  - apply smoothed_volume_bounded; [exact Hn|apply sample_volume_bounded].
Qed.

(** The run on the single cube: one row of the table decides. *)
Lemma generate_surface_single_cube con :
  tri_table 228%nat <> [] ->
  exists verts faces,
    generate_surface tri_table 2 (-1, 1) 0 con
      = (con ++ progress 2, Ok (verts, faces)) /\
    length faces = length (tri_table 228%nat) /\
    verts <> [].
Proof.
  intros Hrow.
  rewrite generate_surface_stages, axis_spacing_ok by lia.
  set (spacing := (_, _, _)).
  unfold marching_cubes.
  rewrite (has_shape_shape 2 2 2) by (try apply smoothed_volume_shape; lia).
  cbn [Nat.ltb Nat.leb orb].
  pose proof single_cube_range as [L U].
  destruct (Rlt_dec 0 (amin _)); [lra|].
  destruct (Rlt_dec (amax _) 0); [lra|].
  rewrite single_cube_extract.
  set (tris := map _ (tri_table 228%nat)).
  assert (Hlen : length tris = length (tri_table 228%nat))
    by (unfold tris; apply length_map).
  destruct (fold_left emit tris ([], [])) as [verts faces] eqn:E.
  assert (Hv : verts = triangle_vertices tris)
    by (change verts with (fst (verts, faces)); rewrite <- E;
        apply fold_emit_verts).
  assert (Hf : length faces = length tris)
    by (change faces with (snd (verts, faces)); rewrite <- E;
        apply fold_emit_faces).
  cbn [fst].
  assert (Hn : length verts = (3 * length tris)%nat)
    by (rewrite Hv; apply triangle_vertices_length).
  assert (Hpos : (0 < length (tri_table 228%nat))%nat)
    by (destruct (tri_table 228%nat); [congruence|simpl; lia]).
  clearbody tris; clear Hv E.
  destruct verts as [|v verts']; [simpl in Hn; lia|].
  rewrite coordinate_mapper_eq.
  exists (map (translate (fst (-1, 1))) (v :: verts')), faces.
  split; [reflexivity|split; [lia|discriminate]].
Qed.

(** With an empty row 228 the run on the single cube finds no surface. *)
Lemma generate_surface_single_cube_empty con :
  tri_table 228%nat = [] ->
  generate_surface tri_table 2 (-1, 1) 0 con
    = (con ++ progress 2,
       Raise (RuntimeError "No surface found at the given iso value.")).
Proof.
  intros Hrow.
  rewrite generate_surface_stages, axis_spacing_ok by lia.
  unfold marching_cubes.
  rewrite (has_shape_shape 2 2 2) by (try apply smoothed_volume_shape; lia).
  cbn [Nat.ltb Nat.leb orb].
  pose proof single_cube_range as [L U].
  destruct (Rlt_dec 0 (amin _)); [lra|].
  destruct (Rlt_dec (amax _) 0); [lra|].
  now rewrite single_cube_extract, Hrow.
Qed.

Lemma correlate1d_ext w n f g i :
  (0 < n)%nat -> (forall i', (i' < n)%nat -> f i' = g i') ->
  correlate1d w n f i = correlate1d w n g i.
Proof.
  intros Hn Hfg; unfold correlate1d; f_equal.
  apply map_ext; intros dw; f_equal; apply Hfg, reflect_lt, Hn.
Qed.

Lemma gaussian_filter1d_get n0 n1 n2 v sigma axis i j k :
  has_shape n0 n1 n2 v ->
  (i < n0)%nat -> (j < n1)%nat -> (k < n2)%nat ->
  vol_get (gaussian_filter1d v sigma axis) i j k =
  let w := gaussian_kernel1d sigma (kernel_radius sigma) in
  match axis with
  | 0%nat => correlate1d w n0 (fun i' => vol_get v i' j k) i
  | 1%nat => correlate1d w n1 (fun j' => vol_get v i j' k) j
  | _ => correlate1d w n2 (fun k' => vol_get v i j k') k
  end.
Proof.
  intros Hs Hi Hj Hk; unfold gaussian_filter1d.
  rewrite (has_shape_shape n0 n1 n2) by (assumption || lia).
  destruct axis as [|[|axis]]; now rewrite tabulate3_get.
Qed.

(** Each smoothed entry is the sample correlated along axis 0, then 1, then
    2 with the kernel of sigma = 0.5 and radius 2. *)
Lemma smoothed_volume_entry n bounds i j k :
  (i < n)%nat -> (j < n)%nat -> (k < n)%nat ->
  vol_get (smoothed_volume n bounds) i j k =
  let w := gaussian_kernel1d (/ 2) 2 in
  correlate1d w n
    (fun k' =>
       correlate1d w n
         (fun j' =>
            correlate1d w n
              (fun i' => vol_get (sample_volume n bounds) i' j' k') i) j) k.
Proof.
  intros Hi Hj Hk; unfold smoothed_volume, gaussian_filter.
  destruct (Rlt_dec _ _) as [_|N]; [|destruct (N sigma_half_filters)].
  pose proof (sample_volume_shape n bounds) as S0.
  pose proof (gaussian_filter1d_shape n n n _ (/ 2) 0 S0 ltac:(lia) ltac:(lia))
    as S1.
  pose proof (gaussian_filter1d_shape n n n _ (/ 2) 1 S1 ltac:(lia) ltac:(lia))
    as S2.
  rewrite (gaussian_filter1d_get n n n) by assumption.
  cbv zeta; rewrite kernel_radius_half.
  apply correlate1d_ext; [lia|]; intros k' Hk'.
  rewrite (gaussian_filter1d_get n n n) by assumption.
  cbv zeta; rewrite kernel_radius_half.
  apply correlate1d_ext; [lia|]; intros j' Hj'.
  rewrite (gaussian_filter1d_get n n n) by assumption.
  cbv zeta; now rewrite kernel_radius_half.
Qed.

Lemma field_2_pos : 0 < field 2 2 2.
Proof.
  unfold field; replace (2 * 2) with 4 by ring.
  pose proof cos_4_neg; pose proof sin_2_pos; pose proof cos_2_neg.
  assert (0 < cos 4 * cos 2) by nra.
  assert (0 < cos 4 * cos 2 * sin 2) by nra.
  nra.
Qed.

Lemma sample_degenerate_entry n i j k :
  (2 <= n)%nat -> (i < n)%nat -> (j < n)%nat -> (k < n)%nat ->
  vol_get (sample_volume n (2, 2)) i j k = field 2 2 2.
Proof.
  intros Hn Hi Hj Hk; rewrite sample_volume_entry by assumption.
  unfold axis; cbn [fst snd]; rewrite !linspace_nth by lia.
  unfold lattice; f_equal; unfold Rdiv; ring.
Qed.

End Runs.

(* ================================================================== *)
(** * The properties of the specification *)
(* ================================================================== *)

(** C1: for every resolution of at least 2 and bounds lo < hi, the sampling
    stage produces a volume of exactly resolution^3 entries; the coordinates
    of each axis are evenly spaced, from lo to hi inclusive; the entry at
    (i, j, k) is the field at the lattice point (x_i, x_j, x_k); and the
    spacing handed to the extractor is (hi - lo) / (resolution - 1) on each
    axis. *)
Theorem sampling_stage_correct tri_table resolution lo hi :
  (2 <= resolution)%nat -> lo < hi ->
  sampling_stage_spec tri_table resolution lo hi.
Proof.
  intros Hn Hb; unfold sampling_stage_spec; cbv zeta.
  assert (X : forall i, (i < resolution)%nat ->
            nth i (axis (lo, hi) resolution) 0
            = lo + INR i * ((hi - lo) / INR (resolution - 1)))
    by (intros i Hi; unfold axis; cbn [fst snd]; now rewrite linspace_nth).
  repeat split.
  - rewrite (has_shape_size _ _ _ _ (sample_volume_shape resolution (lo, hi))).
    simpl; lia.
  - exact X.
  - rewrite X by lia; simpl; ring.
  - rewrite X by lia. apply lattice_last, Hn.
  - intros i j k Hi Hj Hk; now apply sample_volume_entry.
  - now apply axis_spacing_ok.
  - intros iso con.
    rewrite generate_surface_stages, axis_spacing_ok by exact Hn.
    reflexivity.
Qed.

Lemma sampling_stage_correct_witness :
  sampling_stage_spec table_rows 2 (-1) 1.
Proof.
  apply (sampling_stage_correct table_rows 2 (-1) 1); [lia|lra].
Defined.

(** C7: the coordinate mapping adds the lower bound to each of the three
    components of every vertex, returns for every mesh, and leaves the faces
    as they are; a run whose extraction succeeds returns the extracted mesh
    so translated. *)
Theorem coordinate_mapping_translates tri_table lo verts faces con :
  coordinate_mapper lo (verts, faces) con
    = (con, Ok (map (translate lo) verts, faces)) /\
  (forall i x y z, nth_error verts i = Some (x, y, z) ->
     nth_error (map (translate lo) verts) i = Some (x + lo, y + lo, z + lo)) /\
  length (map (translate lo) verts) = length verts /\
  forall resolution hi iso spacing,
    axis_spacing resolution (lo, hi) = Ok spacing ->
    marching_cubes tri_table (smoothed_volume resolution (lo, hi)) iso spacing
      = Ok (verts, faces) ->
    generate_surface tri_table resolution (lo, hi) iso con
      = (con ++ progress resolution, Ok (map (translate lo) verts, faces)).
Proof.
  split; [apply coordinate_mapper_eq|split; [|split]].
  - intros i x y z E; now rewrite nth_error_map, E.
  - apply length_map.
  - intros resolution hi iso spacing Hs Hm.
    rewrite generate_surface_stages, Hs, Hm.
    apply coordinate_mapper_eq.
Qed.

(** C10: in the interactive shell, whatever line the user enters, the
    resolution handed on to surface generation lies in [30, 100]: it is 50
    for an empty (blank) line and for a line that [int] rejects, and
    max(30, min(100, n)) for a line that [int] reads as n.  [main] calls
    [generate_surface] once, with exactly that resolution, the bounds
    (-pi, pi) and the level 0, after the two lines that announce the
    resolution; what [main] prints and returns is decided by that call. *)
Theorem interactive_resolution_clamped (builtins : Builtins) tri_table
  plot_surface plt_show line con :
  exists r con',
    read_resolution line (con ++ banner) = (con', Ok r) /\
    main tri_table plot_surface plt_show line con
      = main_with tri_table plot_surface plt_show r con' /\
    (30 <= r <= 100)%Z /\
    Z.of_nat (Z.to_nat r) = r /\
    r = (if str_truthy (str_strip line) then
           match int_of_str (str_strip line) with
           | Some n => Z.max 30 (Z.min 100 n)
           | None => 50
           end
         else 50)%Z /\
    (30 <= Z.to_nat r <= 100)%nat /\
    main tri_table plot_surface plt_show line con =
      match generate_surface tri_table (Z.to_nat r) (- PI, PI) 0
              (con' ++ resolution_lines r) with
      | (con2, Raise e) => (con2 ++ failure_lines e, Ok 1%Z)
      | (con2, Ok mesh) =>
          match report_and_render plot_surface plt_show mesh con2 with
          | (con3, Raise e) => (con3 ++ failure_lines e, Ok 1%Z)
          | (con3, Ok _) =>
              (con3 ++ [(nl ++ "Visualization complete!")%string], Ok 0%Z)
          end
      end.
Proof.
  assert (E : forall c, main tri_table plot_surface plt_show line c =
            match read_resolution line (c ++ banner) with
            | (c', Ok r) => main_with tri_table plot_surface plt_show r c'
            | (c', Raise e) => (c', Raise e)
            end).
  { intros c; unfold main, bind at 1 2 3 4 5 6 7, print; cbn [fst snd].
    unfold bind at 1.
    replace (((((((c ++ [str_repeat "=" 60]) ++ _) ++ _) ++ _) ++ _) ++ _) ++ _)
      with (c ++ banner) by (unfold banner; now rewrite <- !app_assoc).
    reflexivity. }
  assert (W : forall r c,
            main_with tri_table plot_surface plt_show r c =
            match generate_surface tri_table (Z.to_nat r) (- PI, PI) 0
                    (c ++ resolution_lines r) with
            | (con2, Raise e) => (con2 ++ failure_lines e, Ok 1%Z)
            | (con2, Ok mesh) =>
                match report_and_render plot_surface plt_show mesh con2 with
                | (con3, Raise e) => (con3 ++ failure_lines e, Ok 1%Z)
                | (con3, Ok _) =>
                    (con3 ++ [(nl ++ "Visualization complete!")%string],
                     Ok 0%Z)
                end
            end).
  { intros r c; unfold main_with, failure_lines, resolution_lines.
    unfold bind at 1 2, print at 1 2; cbn [fst snd].
    rewrite <- app_assoc; cbn [app].
    set (c0 := c ++ _).
    unfold bind at 1.
    destruct (generate_surface tri_table (Z.to_nat r) (- PI, PI) 0 c0)
      as [con2 [mesh|e]].
    - unfold report_and_render.
      match goal with
      | |- match ?c with _ => _ end = _ => set (run := c)
      end.
      clearbody run; destruct run as [con3 [u|e]]; unfold bind, print, ret;
        [reflexivity|now rewrite <- app_assoc].
    - unfold bind, print, ret; now rewrite <- app_assoc. }
  rewrite E; unfold read_resolution, bind at 1 2 3, print at 1, lift, ret, int.
  destruct (str_truthy (str_strip line)).
  - destruct (int_of_str (str_strip line)) as [n|].
    + eexists _, _; repeat split; try lia; apply W.
    + eexists _, _; repeat split; try lia; apply W.
  - eexists _, _; repeat split; try lia; apply W.
Qed.

(** C2, as the program has it: when the requested level lies outside the
    data range of the smoothed samples (the field never attains it), the
    run fails with the extractor's ValueError after the three progress
    lines; and no run returns a mesh without vertices. *)
Theorem unattained_level_is_error tri_table resolution lo hi iso con :
  (2 <= resolution)%nat -> lo < hi ->
  iso < amin (smoothed_volume resolution (lo, hi))
  \/ amax (smoothed_volume resolution (lo, hi)) < iso ->
  generate_surface tri_table resolution (lo, hi) iso con =
    (con ++ progress resolution,
     Raise (ValueError "Surface level must be within volume data range."))
  /\ forall iso' con' verts faces,
       generate_surface tri_table resolution (lo, hi) iso' con
         = (con', Ok (verts, faces)) ->
       verts <> [].
Proof.
  intros Hn _ Hout; split; [now apply generate_surface_level_check|].
  intros iso' con' verts faces Hrun.
  apply generate_surface_ok in Hrun as (spacing & verts0 & _ & Hm & -> & _).
  apply marching_cubes_nonempty in Hm as [Hne _].
  destruct verts0; [congruence|discriminate].
Qed.

Lemma unattained_level_is_error_witness :
  generate_surface table_rows 2 (-1, 1) 5 [] =
    ([] ++ progress 2,
     Raise (ValueError "Surface level must be within volume data range."))
  /\ forall iso' con' verts faces,
       generate_surface table_rows 2 (-1, 1) iso' []
         = (con', Ok (verts, faces)) ->
       verts <> [].
Proof.
  apply (unattained_level_is_error table_rows 2 (-1) 1 5 []);
    [lia|lra|].
  right. pose proof (smoothed_volume_range 2 (-1, 1) ltac:(lia)); lra.
Defined.

(** C2 as stated fails: at resolution 2 on bounds (-1, 1) no smoothed sample
    equals 5, and the run for level 5 raises ValueError instead of returning
    an empty mesh. *)
Lemma unattained_level_counterexample :
  (forall i j k, (i < 2)%nat -> (j < 2)%nat -> (k < 2)%nat ->
     vol_get (smoothed_volume 2 (-1, 1)) i j k <> 5) /\
  generate_surface table_rows 2 (-1, 1) 5 [] =
    (progress 2,
     Raise (ValueError "Surface level must be within volume data range.")).
Proof.
  split.
  - intros i j k Hi Hj Hk.
    pose proof (smoothed_volume_bounded 2 (-1, 1) (-3) 3 ltac:(lia)
                  (sample_volume_bounded 2 (-1, 1)) i j k Hi Hj Hk).
    lra.
  - apply (generate_surface_level_check table_rows 2 (-1) 1 5 []); [lia|].
    right. pose proof (smoothed_volume_range 2 (-1, 1) ltac:(lia)); lra.
Qed.

(** C3, as the program has it: no input is validated.  With resolution 1
    the 1x1x1 volume is sampled and smoothed and the three progress lines
    are printed before the run fails with IndexError on x[1]; with bounds
    (2, 2) and a resolution of at least 2 the constant volume field(2, 2, 2)
    is sampled, and the run for level 0 fails only in the level check of the
    extractor. *)
Theorem no_input_validation tri_table con :
  (forall lo hi iso,
     sample_volume 1 (lo, hi) = [[[field lo lo lo]]] /\
     generate_surface tri_table 1 (lo, hi) iso con =
       (con ++ progress 1,
        Raise (IndexError "index 1 is out of bounds for axis 0 with size 1")))
  /\
  (forall resolution, (2 <= resolution)%nat ->
     (forall i j k, (i < resolution)%nat -> (j < resolution)%nat ->
                    (k < resolution)%nat ->
        vol_get (sample_volume resolution (2, 2)) i j k = field 2 2 2) /\
     generate_surface tri_table resolution (2, 2) 0 con =
       (con ++ progress resolution,
        Raise (ValueError "Surface level must be within volume data range."))).
Proof.
  split.
  - intros lo hi iso; split; [reflexivity|].
    now rewrite generate_surface_stages, axis_spacing_single.
  - intros n Hn; split; [intros; now apply sample_degenerate_entry|].
    apply generate_surface_level_check; [exact Hn|left].
    pose proof field_2_pos.
    assert (B : vol_bounded n n n (field 2 2 2) (field 2 2 2)
                  (sample_volume n (2, 2))).
    { intros i j k Hi Hj Hk; rewrite sample_degenerate_entry by assumption.
      lra. }
    apply (smoothed_volume_bounded n (2, 2) _ _ ltac:(lia)) in B.
    apply (vol_bounded_range n n n) in B;
      [lra|apply smoothed_volume_shape; lia|lia|lia|lia].
Qed.

(** C3 as stated fails: the run with resolution 1 ends in IndexError, not
    in a validation error, and only after sampling: the three progress lines
    are on the console and the one-sample volume exists. *)
Lemma resolution_one_counterexample :
  sample_volume 1 (-1, 1) = [[[field (-1) (-1) (-1)]]] /\
  generate_surface table_rows 1 (-1, 1) 0 [] =
    (progress 1,
     Raise (IndexError "index 1 is out of bounds for axis 0 with size 1")).
Proof.
  split; [reflexivity|].
  now rewrite generate_surface_stages, axis_spacing_single.
Qed.

(** C5: every vertex the extraction emits lies on one of the twelve edges
    of a cube of the lattice, at the parameter
    t = clamp((iso - v0) / (v1 - v0), 0, 1) of that edge: t lies in [0, 1],
    each coordinate of the vertex is the coordinate of the first end plus t
    times the difference to the second end and lies between the two, and
    the value interpolated at t lies between the corner values v0 and v1.
    When the table names cut edges only, the edge is cut, t is the quotient
    itself and the interpolated value is the level.  The same holds for the
    vertices of every successful call of the extractor. *)
Theorem extraction_never_extrapolates tri_table vol iso spacing :
  Forall (interpolated vol iso spacing)
         (fst (extract tri_table vol iso spacing)) /\
  (table_cuts tri_table ->
   Forall (interpolated_on_cut vol iso spacing)
          (fst (extract tri_table vol iso spacing))) /\
  forall verts faces,
    marching_cubes tri_table vol iso spacing = Ok (verts, faces) ->
    Forall (interpolated vol iso spacing) verts /\
    (table_cuts tri_table ->
     Forall (interpolated_on_cut vol iso spacing) verts).
Proof.
  pose proof (extract_interpolated tri_table vol iso spacing) as [H1 H2].
  split; [exact H1|split; [exact H2|]].
  intros verts faces Hm.
  apply marching_cubes_nonempty in Hm as [_ Hm].
  rewrite <- Hm in H1, H2; cbn [fst] in H1, H2.
  split; assumption.
Qed.

Lemma extraction_never_extrapolates_witness :
  fst (extract table_rows (smoothed_volume 2 (-1, 1)) 0 (2, 2, 2)) <> [] /\
  Forall (interpolated_on_cut (smoothed_volume 2 (-1, 1)) 0 (2, 2, 2))
         (fst (extract table_rows (smoothed_volume 2 (-1, 1)) 0 (2, 2, 2))).
Proof.
  split.
  - rewrite single_cube_extract, fold_emit_verts; discriminate.
  - exact (proj1 (proj2 (extraction_never_extrapolates table_rows
                           (smoothed_volume 2 (-1, 1)) 0 (2, 2, 2)))
             table_rows_cuts).
Defined.

(** C8, as the program has it: the smoothing sigma is not a parameter of
    [generate_surface]; every run smooths the sampled volume with sigma 0.5,
    whose kernel has radius 2, along the three axes in turn (each smoothed
    entry is the sample correlated along axis 0, then 1, then 2), and hands
    that volume to the extractor. *)
Theorem smoothing_sigma_fixed tri_table resolution bounds :
  kernel_radius (/ 2) = 2%Z /\
  (forall i j k, (i < resolution)%nat -> (j < resolution)%nat ->
                 (k < resolution)%nat ->
     vol_get (smoothed_volume resolution bounds) i j k =
     let w := gaussian_kernel1d (/ 2) 2 in
     correlate1d w resolution
       (fun k' =>
          correlate1d w resolution
            (fun j' =>
               correlate1d w resolution
                 (fun i' => vol_get (sample_volume resolution bounds) i' j' k')
                 i) j) k) /\
  forall iso con,
    generate_surface tri_table resolution bounds iso con =
    match axis_spacing resolution bounds with
    | Raise e => (con ++ progress resolution, Raise e)
    | Ok spacing =>
        match marching_cubes tri_table
                (gaussian_filter (sample_volume resolution bounds) (/ 2))
                iso spacing with
        | Raise e => (con ++ progress resolution, Raise e)
        | Ok mesh =>
            coordinate_mapper (fst bounds) mesh (con ++ progress resolution)
        end
    end.
Proof.
  split; [apply kernel_radius_half|split].
  - intros i j k Hi Hj Hk; now apply smoothed_volume_entry.
  - intros iso con; apply generate_surface_stages.
Qed.

(** C8 as stated fails: the smoothing is no pass-through.  At resolution 2
    on bounds (-1, 1) the volume handed to the extractor differs from the
    sampled volume: its entry (0, 0, 0) is the sampled entry times a factor
    strictly between 0 and 1. *)
Lemma smoothing_counterexample :
  vol_get (smoothed_volume 2 (-1, 1)) 0 0 0
    = (w_same - w_other) * vol_get (sample_volume 2 (-1, 1)) 0 0 0 /\
  0 < w_same - w_other < 1 /\
  smoothed_volume 2 (-1, 1) <> sample_volume 2 (-1, 1).
Proof.
  pose proof w_diff_range as Hg; pose proof unit_sample_neg as HK.
  assert (E : vol_get (smoothed_volume 2 (-1, 1)) 0 0 0
              = (w_same - w_other) * vol_get (sample_volume 2 (-1, 1)) 0 0 0)
    by (now rewrite smoothed_pair_entry, sample_pair_entry by lia).
  split; [exact E|split; [exact Hg|]].
  intros Heq; rewrite Heq in E.
  rewrite sample_pair_entry in E by lia; cbn [sgn] in E.
  assert (unit_sample * (- (1) + - (1) + - (1)) <> 0) by lra.
  nra.
Qed.

(** C9, as the program has it: with resolution 2 on bounds (-1, 1) the
    lattice has exactly one cube.  The smoothed samples lie on both sides of
    the default level 0, which sets the four corners with i + j + k >= 2
    apart from the four others (configuration 228); the run at that level
    returns the triangles of that row of the table when the row has any, and
    otherwise fails with "No surface found".  A level outside the data range
    makes the run fail with the ValueError of the level check, and no run
    returns a mesh without vertices. *)
Theorem single_cube_run tri_table con :
  let vol := smoothed_volume 2 (-1, 1) in
  let run := fun iso => generate_surface tri_table 2 (-1, 1) iso con in
  shape vol = (2, 2, 2)%nat /\
  cubes 2 2 2 = [(0, 0, 0)%nat] /\
  amin vol < 0 < amax vol /\
  (forall i j k, (i < 2)%nat -> (j < 2)%nat -> (k < 2)%nat ->
     inside default_iso_value (vol_get vol i j k) = (2 <=? i + j + k)%nat) /\
  cube_config vol default_iso_value (0, 0, 0)%nat = 228%nat /\
  (tri_table 228%nat <> [] ->
   exists verts faces,
     run default_iso_value = (con ++ progress 2, Ok (verts, faces)) /\
     length faces = length (tri_table 228%nat) /\
     verts <> []) /\
  (tri_table 228%nat = [] ->
   run default_iso_value =
     (con ++ progress 2,
      Raise (RuntimeError "No surface found at the given iso value."))) /\
  (forall iso,
     iso < amin vol \/ amax vol < iso ->
     run iso =
       (con ++ progress 2,
        Raise (ValueError "Surface level must be within volume data range."))) /\
  (forall iso con' verts faces,
     run iso = (con', Ok (verts, faces)) ->
     verts <> [] /\ amin vol <= iso <= amax vol).
Proof.
  cbv zeta.
  split; [apply (has_shape_shape 2 2 2);
          [apply smoothed_volume_shape|..]; lia|].
  split; [reflexivity|].
  split; [apply single_cube_strict_range|].
  split; [intros; now apply smoothed_pair_sign|].
  split; [apply single_cube_config|].
  split; [intros Hrow; now apply generate_surface_single_cube|].
  split; [intros Hrow; now apply generate_surface_single_cube_empty|].
  split; [intros iso Hout; now apply generate_surface_level_check|].
  intros iso con' verts faces Hrun.
  apply generate_surface_ok in Hrun as (spacing & verts0 & _ & Hm & -> & _).
  split.
  - apply marching_cubes_nonempty in Hm as [Hne _].
    destruct verts0; [congruence|discriminate].
  - unfold marching_cubes in Hm.
    destruct (shape _) as [[n0 n1] n2].
    destruct (_ || _)%bool; [discriminate|].
    destruct (Rlt_dec _ _); [discriminate|].
    destruct (Rlt_dec _ _); [discriminate|]. lra.
Qed.

Lemma single_cube_run_witness :
  exists verts faces,
    generate_surface table_rows 2 (-1, 1) default_iso_value []
      = ([] ++ progress 2, Ok (verts, faces)) /\
    length faces = 4%nat /\
    verts <> [].
Proof.
  exact (proj1 (proj2 (proj2 (proj2 (proj2 (proj2
           (single_cube_run table_rows []))))))
           ltac:(discriminate)).
Defined.

(** C9 as stated fails: the run with resolution 2 on bounds (-1, 1) can
    fail.  For the level -5, below every smoothed sample, it raises the
    ValueError of the level check after its three progress lines. *)
Lemma single_cube_level_counterexample :
  generate_surface table_rows 2 (-1, 1) (-5) [] =
    (progress 2,
     Raise (ValueError "Surface level must be within volume data range.")).
Proof.
  apply (generate_surface_level_check table_rows 2 (-1) 1 (-5) []); [lia|].
  left. pose proof (smoothed_volume_range 2 (-1, 1) ltac:(lia)); lra.
Qed.

(* ================================================================== *)
(** ** The interactive shell on ASCII lines *)
(* ================================================================== *)

Section ShellExamples.

Import AsciiBuiltins.

Let resolution_of (line : string) : result Z :=
  snd (@read_resolution ascii_builtins line []).

Example resolution_default : resolution_of "" = Ok 50%Z.
Proof. reflexivity. Qed.

Example resolution_blank : resolution_of "   " = Ok 50%Z.
Proof. reflexivity. Qed.

Example resolution_in_range : resolution_of " 64 " = Ok 64%Z.
Proof. reflexivity. Qed.

Example resolution_below : resolution_of "1" = Ok 30%Z.
Proof. reflexivity. Qed.

Example resolution_negative : resolution_of "-7" = Ok 30%Z.
Proof. reflexivity. Qed.

Example resolution_above : resolution_of "2_500" = Ok 100%Z.
Proof. reflexivity. Qed.

Example resolution_not_a_number : resolution_of "fifty" = Ok 50%Z.
Proof. reflexivity. Qed.

Example resolution_not_an_integer : resolution_of "64.0" = Ok 50%Z.
Proof. reflexivity. Qed.

End ShellExamples.

(* ================================================================== *)
(** * Further properties of the code *)
(* ================================================================== *)

(* ================================================================== *)
(** ** The field function *)
(* ================================================================== *)

(** X1: on three arrays of one shape, [fischer_koch_s] returns an array of
    that shape whose every entry is the implicit equation evaluated at the
    corresponding entries of the arguments. *)
Theorem fischer_koch_s_elementwise n0 n1 n2 X Y Z :
  has_shape n0 n1 n2 X -> has_shape n0 n1 n2 Y -> has_shape n0 n1 n2 Z ->
  has_shape n0 n1 n2 (fischer_koch_s X Y Z) /\
  size (fischer_koch_s X Y Z) = (n0 * n1 * n2)%nat /\
  forall i j k, (i < n0)%nat -> (j < n1)%nat -> (k < n2)%nat ->
    vol_get (fischer_koch_s X Y Z) i j k =
    cos (2 * vol_get X i j k) * sin (vol_get Y i j k) * cos (vol_get Z i j k)
    + cos (2 * vol_get Y i j k) * sin (vol_get Z i j k) * cos (vol_get X i j k)
    + cos (2 * vol_get Z i j k) * sin (vol_get X i j k) * cos (vol_get Y i j k).
Proof.
  intros HX HY HZ.
  pose proof (fischer_koch_s_shape _ _ _ _ _ _ HX HY HZ) as Hs.
  split; [exact Hs|split; [now apply has_shape_size|]].
  intros i j k Hi Hj Hk.
  now rewrite (fischer_koch_s_get n0 n1 n2).
Qed.

Lemma fischer_koch_s_elementwise_witness :
  has_shape 1 2 1 (fischer_koch_s [[[0]; [1]]] [[[1]; [2]]] [[[2]; [0]]]) /\
  size (fischer_koch_s [[[0]; [1]]] [[[1]; [2]]] [[[2]; [0]]]) = (1 * 2 * 1)%nat /\
  forall i j k, (i < 1)%nat -> (j < 2)%nat -> (k < 1)%nat ->
    vol_get (fischer_koch_s [[[0]; [1]]] [[[1]; [2]]] [[[2]; [0]]]) i j k =
    cos (2 * vol_get [[[0]; [1]]] i j k) * sin (vol_get [[[1]; [2]]] i j k)
      * cos (vol_get [[[2]; [0]]] i j k)
    + cos (2 * vol_get [[[1]; [2]]] i j k) * sin (vol_get [[[2]; [0]]] i j k)
      * cos (vol_get [[[0]; [1]]] i j k)
    + cos (2 * vol_get [[[2]; [0]]] i j k) * sin (vol_get [[[0]; [1]]] i j k)
      * cos (vol_get [[[1]; [2]]] i j k).
Proof.
  apply (fischer_koch_s_elementwise 1 2 1);
    (split; [reflexivity|repeat constructor]).
Defined.

(** X2: the implicit equation is odd under the point reflection
    (x, y, z) -> (-x, -y, -z) and invariant under the cyclic permutation
    (x, y, z) -> (y, z, x) of its arguments; it vanishes at the origin. *)
Theorem field_symmetries x y z :
  field (- x) (- y) (- z) = - field x y z /\
  field y z x = field x y z /\
  field 0 0 0 = 0.
Proof.
  unfold field; repeat split.
  - replace (2 * - x) with (- (2 * x)) by ring.
    replace (2 * - y) with (- (2 * y)) by ring.
    replace (2 * - z) with (- (2 * z)) by ring.
    rewrite !cos_neg, !sin_neg; ring.
  - ring.
  - rewrite sin_0; ring.
Qed.

(** X3: the implicit equation is periodic with period 2 pi in each of its
    three arguments, independently. *)
Theorem field_triply_periodic x y z (a b c : nat) :
  field (x + 2 * INR a * PI) (y + 2 * INR b * PI) (z + 2 * INR c * PI)
  = field x y z.
Proof.
  unfold field.
  assert (D : forall u n, 2 * (u + 2 * INR n * PI)
                          = 2 * u + 2 * INR (2 * n) * PI)
    by (intros u n; rewrite mult_INR; simpl INR; ring).
  now rewrite !D, !cos_period, !sin_period.
Qed.

(* ================================================================== *)
(** ** Smoothing and the level check *)
(* ================================================================== *)

Lemma sample_volume_range_bounded n bounds :
  (0 < n)%nat ->
  vol_bounded n n n (amin (sample_volume n bounds))
    (amax (sample_volume n bounds)) (sample_volume n bounds).
Proof.
  intros Hn i j k Hi Hj Hk.
  apply (amin_le_entry n n n); auto using sample_volume_shape.
Qed.

(** X4: the Gaussian smoothing of [generate_surface] keeps the shape of the
    sampled volume and creates no new extremum: every smoothed entry, and so
    the smoothed minimum and maximum, lies between the least and the
    greatest sample; all of them lie in [-3, 3]. *)
Theorem smoothing_keeps_range resolution bounds :
  (0 < resolution)%nat ->
  has_shape resolution resolution resolution (smoothed_volume resolution bounds)
  /\ (forall i j k, (i < resolution)%nat -> (j < resolution)%nat ->
                    (k < resolution)%nat ->
        amin (sample_volume resolution bounds)
        <= vol_get (smoothed_volume resolution bounds) i j k
        <= amax (sample_volume resolution bounds))
  /\ -3 <= amin (sample_volume resolution bounds)
        <= amin (smoothed_volume resolution bounds)
  /\ amax (smoothed_volume resolution bounds)
        <= amax (sample_volume resolution bounds) <= 3.
Proof.
  intros Hn.
  pose proof (smoothed_volume_shape resolution bounds Hn) as Hs.
  pose proof (smoothed_volume_bounded resolution bounds _ _ Hn
                (sample_volume_range_bounded resolution bounds Hn)) as Hb.
  pose proof (vol_bounded_range _ _ _ _ _ _ Hs Hn Hn Hn Hb) as [L U].
  pose proof (vol_bounded_range _ _ _ _ _ _
                (sample_volume_shape resolution bounds) Hn Hn Hn
                (sample_volume_bounded resolution bounds)) as [L' U'].
  split; [exact Hs|split; [exact Hb|split; split; assumption]].
Qed.

Lemma smoothing_keeps_range_witness :
  has_shape 3 3 3 (smoothed_volume 3 (0, 1))
  /\ (forall i j k, (i < 3)%nat -> (j < 3)%nat -> (k < 3)%nat ->
        amin (sample_volume 3 (0, 1))
        <= vol_get (smoothed_volume 3 (0, 1)) i j k
        <= amax (sample_volume 3 (0, 1)))
  /\ -3 <= amin (sample_volume 3 (0, 1)) <= amin (smoothed_volume 3 (0, 1))
  /\ amax (smoothed_volume 3 (0, 1)) <= amax (sample_volume 3 (0, 1)) <= 3.
Proof.
  apply (smoothing_keeps_range 3 (0, 1)); lia.
Defined.

(** X5: whatever the resolution (at least 2) and the bounds, a level above 3
    or below -3 is never found: the run prints its progress lines and fails
    with the ValueError of the level check. *)
Theorem level_beyond_three_fails tri_table resolution bounds iso con :
  (2 <= resolution)%nat -> 3 < Rabs iso ->
  generate_surface tri_table resolution bounds iso con =
    (con ++ progress resolution,
     Raise (ValueError "Surface level must be within volume data range.")).
Proof.
  intros Hn Hiso; destruct bounds as [lo hi].
  apply generate_surface_level_check; [exact Hn|].
  pose proof (smoothed_volume_range resolution (lo, hi) ltac:(lia)) as [L U].
  unfold Rabs in Hiso; destruct (Rcase_abs iso); [left|right]; lra.
Qed.

Lemma level_beyond_three_fails_witness :
  generate_surface table_rows 50 (- PI, PI) (-4) [] =
    ([] ++ progress 50,
     Raise (ValueError "Surface level must be within volume data range.")).
Proof.
  apply (level_beyond_three_fails table_rows 50 (- PI, PI) (-4) []); [lia|].
  unfold Rabs; destruct (Rcase_abs (-4)); lra.
Defined.

(** X6: a run that returns a mesh had a resolution of at least 2 and a level
    within the data range of the smoothed samples, hence within [-3, 3]; it
    printed exactly its three progress lines. *)
Theorem success_requires tri_table resolution bounds iso con con' mesh :
  generate_surface tri_table resolution bounds iso con = (con', Ok mesh) ->
  (2 <= resolution)%nat /\
  amin (smoothed_volume resolution bounds) <= iso
    <= amax (smoothed_volume resolution bounds) /\
  -3 <= iso <= 3 /\
  con' = con ++ progress resolution.
Proof.
  destruct mesh as [verts faces]; intros Hrun.
  apply generate_surface_ok in Hrun as (spacing & verts0 & Hsp & Hm & _ & Hc).
  assert (Hn : (2 <= resolution)%nat).
  { unfold axis_spacing, axis in Hsp.
    destruct (getitem _ 1) as [x1|e] eqn:E1; [|discriminate].
    unfold getitem in E1.
    destruct (nth_error _ 1) eqn:E; [|discriminate].
    assert (nth_error (linspace (fst bounds) (snd bounds) resolution) 1 <> None)
      by congruence.
    apply nth_error_Some in H; rewrite linspace_length in H; lia. }
  assert (Hr : amin (smoothed_volume resolution bounds) <= iso
               <= amax (smoothed_volume resolution bounds)).
  { unfold marching_cubes in Hm.
    destruct (shape _) as [[n0 n1] n2].
    destruct (_ || _)%bool; [discriminate|].
    destruct (Rlt_dec _ _); [discriminate|].
    destruct (Rlt_dec _ _); [discriminate|]. lra. }
  pose proof (smoothed_volume_range resolution bounds ltac:(lia)) as [L U].
  repeat split; try assumption; lra.
Qed.

Lemma success_requires_witness :
  exists con' mesh,
    generate_surface table_rows 2 (-1, 1) 0 [] = (con', Ok mesh) /\
    (2 <= 2)%nat /\
    amin (smoothed_volume 2 (-1, 1)) <= 0 <= amax (smoothed_volume 2 (-1, 1)) /\
    -3 <= 0 <= 3 /\
    con' = [] ++ progress 2.
Proof.
  destruct (generate_surface_single_cube table_rows []
              ltac:(discriminate)) as (verts & faces & Hrun & _).
  exists ([] ++ progress 2), (verts, faces); split; [exact Hrun|].
  exact (success_requires table_rows 2 (-1, 1) 0 [] _ _ Hrun).
Defined.

(* ================================================================== *)
(** ** Bounds symmetric about the origin *)
(* ================================================================== *)

Section SymmetricBounds.

Variable tri_table : nat -> list (nat * nat * nat).

Lemma lattice_reversed a n i :
  (2 <= n)%nat -> (i < n)%nat ->
  lattice (- a) a n (n - 1 - i) = - lattice (- a) a n i.
Proof.
  intros Hn Hi; unfold lattice.
  rewrite !minus_INR by lia; simpl INR.
  assert (INR n - 1 <> 0).
  { pose proof (le_INR 2 n Hn) as H; simpl in H; lra. }
  field; assumption.
Qed.

Lemma sample_reversed a n i j k :
  (2 <= n)%nat -> (i < n)%nat -> (j < n)%nat -> (k < n)%nat ->
  vol_get (sample_volume n (- a, a)) (n - 1 - i) (n - 1 - j) (n - 1 - k)
  = - vol_get (sample_volume n (- a, a)) i j k.
Proof.
  intros Hn Hi Hj Hk.
  rewrite !sample_volume_entry by lia.
  unfold axis; cbn [fst snd]; rewrite !linspace_nth by lia.
  rewrite !lattice_reversed by assumption.
  apply field_symmetries.
Qed.

Lemma reflect_reversed n p :
  (0 < n)%nat ->
  reflect n (Z.of_nat n - 1 - p) = (n - 1 - reflect n p)%nat.
Proof.
  intros Hn; unfold reflect.
  set (N := Z.of_nat n); assert (HN : (0 < N)%Z) by (unfold N; lia).
  pose proof (Z.mod_pos_bound p (2 * N) ltac:(lia)) as Hm.
  set (m := (p mod (2 * N))%Z) in *.
  assert (Hq : ((N - 1 - p) mod (2 * N) =
                if (m <? N)%Z then N - 1 - m else 3 * N - 1 - m)%Z).
  { destruct (Z.ltb_spec m N).
    - symmetry; apply (Z.mod_unique_pos _ _ (- (p / (2 * N)))); [lia|].
      unfold m; rewrite (Z.mod_eq p (2 * N)) by lia; ring.
    - symmetry; apply (Z.mod_unique_pos _ _ (- (p / (2 * N)) - 1)); [lia|].
      unfold m; rewrite (Z.mod_eq p (2 * N)) by lia; ring. }
  rewrite Hq.
  destruct (Z.ltb_spec m N).
  - destruct (Z.ltb_spec (N - 1 - m) N); unfold N in *; lia.
  - destruct (Z.ltb_spec (3 * N - 1 - m) N); unfold N in *; lia.
Qed.

(** The correlation with the kernel of sigma = 0.5, term by term. *)
Lemma correlate1d_half n line i :
  correlate1d (gaussian_kernel1d (/ 2) 2) n line i =
  (phi (/ 2) 2 * line (reflect n (Z.of_nat i - 2))
   + phi (/ 2) 1 * line (reflect n (Z.of_nat i - 1))
   + phi (/ 2) 0 * line (reflect n (Z.of_nat i))
   + phi (/ 2) 1 * line (reflect n (Z.of_nat i + 1))
   + phi (/ 2) 2 * line (reflect n (Z.of_nat i + 2))) / kernel_total.
Proof.
  unfold correlate1d; rewrite kernel_half_eq.
  cbn [map Rsum fold_right fst snd].
  change (-2)%Z with (- (2))%Z; change (-1)%Z with (- (1))%Z.
  rewrite !phi_even.
  replace (Z.of_nat i + - (2))%Z with (Z.of_nat i - 2)%Z by lia.
  replace (Z.of_nat i + - (1))%Z with (Z.of_nat i - 1)%Z by lia.
  replace (Z.of_nat i + 0)%Z with (Z.of_nat i) by lia.
  pose proof kernel_total_pos_half; field; lra.
Qed.

(** The filter commutes with reversing and negating a line. *)
Lemma correlate1d_reversed n line line' i :
  (i < n)%nat ->
  (forall j, (j < n)%nat -> line' j = - line (n - 1 - j)%nat) ->
  correlate1d (gaussian_kernel1d (/ 2) 2) n line' (n - 1 - i)
  = - correlate1d (gaussian_kernel1d (/ 2) 2) n line i.
Proof.
  intros Hi Hrev; rewrite !correlate1d_half.
  assert (Hn : (0 < n)%nat) by lia.
  assert (T : forall d : Z,
            line' (reflect n (Z.of_nat (n - 1 - i) + d))
            = - line (reflect n (Z.of_nat i - d))).
  { intros d.
    replace (Z.of_nat (n - 1 - i) + d)%Z
      with (Z.of_nat n - 1 - (Z.of_nat i - d))%Z by lia.
    rewrite reflect_reversed by exact Hn.
    pose proof (reflect_lt n (Z.of_nat i - d) Hn) as Hr.
    rewrite Hrev by lia. do 2 f_equal; lia. }
  replace (Z.of_nat (n - 1 - i) - 2)%Z with (Z.of_nat (n - 1 - i) + - 2)%Z by lia.
  replace (Z.of_nat (n - 1 - i) - 1)%Z with (Z.of_nat (n - 1 - i) + - 1)%Z by lia.
  replace (Z.of_nat (n - 1 - i)) with (Z.of_nat (n - 1 - i) + 0)%Z at 3 by lia.
  rewrite !T.
  replace (Z.of_nat i - -2)%Z with (Z.of_nat i + 2)%Z by lia.
  replace (Z.of_nat i - -1)%Z with (Z.of_nat i + 1)%Z by lia.
  replace (Z.of_nat i - 0)%Z with (Z.of_nat i) by lia.
  unfold Rdiv; ring.
Qed.

(** A pass of the filter keeps a volume odd under the reversal of all three
    indices. *)
Lemma gaussian_filter1d_reversed n v axis :
  has_shape n n n v ->
  (forall i j k, (i < n)%nat -> (j < n)%nat -> (k < n)%nat ->
     vol_get v (n - 1 - i) (n - 1 - j) (n - 1 - k) = - vol_get v i j k) ->
  forall i j k, (i < n)%nat -> (j < n)%nat -> (k < n)%nat ->
    vol_get (gaussian_filter1d v (/ 2) axis) (n - 1 - i) (n - 1 - j) (n - 1 - k)
    = - vol_get (gaussian_filter1d v (/ 2) axis) i j k.
Proof.
  intros Hs Hodd i j k Hi Hj Hk.
  rewrite !(gaussian_filter1d_get n n n) by (assumption || lia).
  cbv zeta; rewrite kernel_radius_half.
  assert (R : forall a, (a < n)%nat -> (n - 1 - (n - 1 - a) = a)%nat) by lia.
  destruct axis as [|[|axis]]; apply correlate1d_reversed; try assumption;
    intros a Ha.
  - rewrite <- (R a Ha) at 1; apply Hodd; lia.
  - rewrite <- (R a Ha) at 1; apply Hodd; lia.
  - rewrite <- (R a Ha) at 1; apply Hodd; lia.
Qed.

Lemma smoothed_reversed a n i j k :
  (2 <= n)%nat -> (i < n)%nat -> (j < n)%nat -> (k < n)%nat ->
  vol_get (smoothed_volume n (- a, a)) (n - 1 - i) (n - 1 - j) (n - 1 - k)
  = - vol_get (smoothed_volume n (- a, a)) i j k.
Proof.
  intros Hn; revert i j k; unfold smoothed_volume, gaussian_filter.
  destruct (Rlt_dec _ _) as [_|N]; [|destruct (N sigma_half_filters)].
  pose proof (sample_volume_shape n (- a, a)) as S0.
  pose proof (gaussian_filter1d_shape n n n _ (/ 2) 0 S0 ltac:(lia) ltac:(lia))
    as S1.
  pose proof (gaussian_filter1d_shape n n n _ (/ 2) 1 S1 ltac:(lia) ltac:(lia))
    as S2.
  apply gaussian_filter1d_reversed; [exact S2|].
  apply gaussian_filter1d_reversed; [exact S1|].
  apply gaussian_filter1d_reversed; [exact S0|].
  intros; now apply sample_reversed.
Qed.

Lemma symmetric_bounds_range a n :
  (2 <= n)%nat ->
  amin (smoothed_volume n (- a, a)) <= 0 <= amax (smoothed_volume n (- a, a)).
Proof.
  intros Hn.
  pose proof (smoothed_volume_shape n (- a, a) ltac:(lia)) as Hs.
  pose proof (amin_le_entry n n n _ 0 0 0 Hs ltac:(lia) ltac:(lia) ltac:(lia))
    as [L0 U0].
  pose proof (amin_le_entry n n n _ (n - 1 - 0) (n - 1 - 0) (n - 1 - 0) Hs
                ltac:(lia) ltac:(lia) ltac:(lia)) as [L1 U1].
  rewrite smoothed_reversed in L1, U1 by lia.
  split; lra.
Qed.

(** At level 0 on symmetric bounds the level check passes. *)
Lemma symmetric_bounds_outcome a n con :
  (2 <= n)%nat ->
  fst (generate_surface tri_table n (- a, a) 0 con) = con ++ progress n /\
  ((exists mesh, snd (generate_surface tri_table n (- a, a) 0 con) = Ok mesh)
   \/ snd (generate_surface tri_table n (- a, a) 0 con)
      = Raise (RuntimeError "No surface found at the given iso value.")).
Proof.
  intros Hn.
  pose proof (symmetric_bounds_range a n Hn) as [L U].
  rewrite generate_surface_stages, axis_spacing_ok by exact Hn.
  unfold marching_cubes.
  rewrite (has_shape_shape n n n) by (try apply smoothed_volume_shape; lia).
  replace (n <? 2)%nat with false by (symmetry; apply Nat.ltb_ge; lia).
  cbn [orb].
  destruct (Rlt_dec 0 (amin _)); [lra|].
  destruct (Rlt_dec (amax _) 0); [lra|].
  destruct (extract _ _ _ _) as [[|v verts] faces]; cbn [fst].
  - split; [reflexivity|right; reflexivity].
  - rewrite coordinate_mapper_eq; split; [reflexivity|left].
    now exists (map (translate (fst (- a, a))) (v :: verts), faces).
Qed.

End SymmetricBounds.

(** X7: on bounds symmetric about the origin, (-a, a), the lattice is
    symmetric and the sampled volume is odd under the reversal of all three
    indices: the sample at (n-1-i, n-1-j, n-1-k) is the negative of the
    sample at (i, j, k). *)
Theorem sampling_symmetric_bounds a resolution i j k :
  (2 <= resolution)%nat ->
  (i < resolution)%nat -> (j < resolution)%nat -> (k < resolution)%nat ->
  nth (resolution - 1 - i) (axis (- a, a) resolution) 0
    = - nth i (axis (- a, a) resolution) 0 /\
  vol_get (sample_volume resolution (- a, a))
    (resolution - 1 - i) (resolution - 1 - j) (resolution - 1 - k)
  = - vol_get (sample_volume resolution (- a, a)) i j k.
Proof.
  intros Hn Hi Hj Hk; split; [|now apply sample_reversed].
  unfold axis; cbn [fst snd]; rewrite !linspace_nth by lia.
  now apply lattice_reversed.
Qed.

Lemma sampling_symmetric_bounds_witness :
  nth (50 - 1 - 7) (axis (- PI, PI) 50) 0 = - nth 7 (axis (- PI, PI) 50) 0 /\
  vol_get (sample_volume 50 (- PI, PI)) (50 - 1 - 7) (50 - 1 - 0) (50 - 1 - 49)
  = - vol_get (sample_volume 50 (- PI, PI)) 7 0 49.
Proof.
  apply (sampling_symmetric_bounds PI 50 7 0 49); lia.
Defined.

(** X8: on bounds (-a, a) the smoothed volume is odd under the reversal of
    all three indices as well, so level 0 lies within its data range: a run
    at level 0 passes the level check, and returns a mesh unless the
    extraction finds no vertex. *)
Theorem zero_level_on_symmetric_bounds tri_table a resolution con :
  (2 <= resolution)%nat ->
  (forall i j k, (i < resolution)%nat -> (j < resolution)%nat ->
                 (k < resolution)%nat ->
     vol_get (smoothed_volume resolution (- a, a))
       (resolution - 1 - i) (resolution - 1 - j) (resolution - 1 - k)
     = - vol_get (smoothed_volume resolution (- a, a)) i j k) /\
  amin (smoothed_volume resolution (- a, a)) <= 0
    <= amax (smoothed_volume resolution (- a, a)) /\
  fst (generate_surface tri_table resolution (- a, a) 0 con)
    = con ++ progress resolution /\
  ((exists mesh,
      snd (generate_surface tri_table resolution (- a, a) 0 con) = Ok mesh)
   \/ snd (generate_surface tri_table resolution (- a, a) 0 con)
      = Raise (RuntimeError "No surface found at the given iso value.")).
Proof.
  intros Hn.
  split; [intros; now apply smoothed_reversed|].
  split; [now apply symmetric_bounds_range|].
  now apply symmetric_bounds_outcome.
Qed.

Lemma zero_level_on_symmetric_bounds_witness :
  (forall i j k, (i < 50)%nat -> (j < 50)%nat -> (k < 50)%nat ->
     vol_get (smoothed_volume 50 (- PI, PI))
       (50 - 1 - i) (50 - 1 - j) (50 - 1 - k)
     = - vol_get (smoothed_volume 50 (- PI, PI)) i j k) /\
  amin (smoothed_volume 50 (- PI, PI)) <= 0
    <= amax (smoothed_volume 50 (- PI, PI)) /\
  fst (generate_surface table_rows 50 (- PI, PI) 0 []) = [] ++ progress 50 /\
  ((exists mesh,
      snd (generate_surface table_rows 50 (- PI, PI) 0 []) = Ok mesh)
   \/ snd (generate_surface table_rows 50 (- PI, PI) 0 [])
      = Raise (RuntimeError "No surface found at the given iso value.")).
Proof.
  apply (zero_level_on_symmetric_bounds table_rows PI 50 []); lia.
Defined.

(* ================================================================== *)
(** ** plot_surface: the view limits *)
(* ================================================================== *)

Section ViewLimits.

Lemma Rmax_shift a b c : Rmax (a + c) (b + c) = Rmax a b + c.
Proof. unfold Rmax; destruct (Rle_dec a b), (Rle_dec (a + c) (b + c)); lra. Qed.

Lemma Rmin_shift a b c : Rmin (a + c) (b + c) = Rmin a b + c.
Proof. unfold Rmin; destruct (Rle_dec a b), (Rle_dec (a + c) (b + c)); lra. Qed.

Lemma fold_max_shift c l : forall a,
  fold_left Rmax (map (fun x => x + c) l) (a + c) = fold_left Rmax l a + c.
Proof.
  induction l as [|b l IH]; intros a; simpl; [reflexivity|].
  now rewrite Rmax_shift, IH.
Qed.

Lemma fold_min_shift c l : forall a,
  fold_left Rmin (map (fun x => x + c) l) (a + c) = fold_left Rmin l a + c.
Proof.
  induction l as [|b l IH]; intros a; simpl; [reflexivity|].
  now rewrite Rmin_shift, IH.
Qed.

Lemma column_translate c lo verts :
  column c (map (translate lo) verts) = map (fun x => x + lo) (column c verts).
Proof.
  unfold column; rewrite !map_map; apply map_ext.
  intros [[x y] z]; destruct c as [|[|c]]; reflexivity.
Qed.

Lemma np_max_translate lo l :
  np_max (map (fun x => x + lo) l) = rbind (np_max l) (fun m => Ok (m + lo)).
Proof.
  destruct l as [|a l]; simpl; [reflexivity|now rewrite fold_max_shift].
Qed.

Lemma np_min_translate lo l :
  np_min (map (fun x => x + lo) l) = rbind (np_min l) (fun m => Ok (m + lo)).
Proof.
  destruct l as [|a l]; simpl; [reflexivity|now rewrite fold_min_shift].
Qed.

Lemma np_max_min_nonempty l :
  l <> [] ->
  exists hi lo, np_max l = Ok hi /\ np_min l = Ok lo /\
                forall x, In x l -> lo <= x <= hi.
Proof.
  destruct l as [|a l]; [congruence|intros _].
  exists (fold_left Rmax l a), (fold_left Rmin l a).
  split; [reflexivity|split; [reflexivity|]].
  intros x Hx; split; [now apply fold_min_le|now apply fold_max_ge].
Qed.

Lemma column_in c x y z verts :
  In (x, y, z) verts ->
  In (match c with 0%nat => x | 1%nat => y | _ => z end) (column c verts).
Proof.
  intros H; unfold column.
  apply (in_map (fun '(x, y, z) =>
                   match c with 0%nat => x | 1%nat => y | _ => z end)) in H.
  exact H.
Qed.

Lemma column_nonempty c verts : verts <> [] -> column c verts <> [].
Proof. destruct verts; [congruence|discriminate]. Qed.

(** For a non-empty vertex array the limits are those of a cube around the
    middles of the three columns, large enough for every vertex. *)
Lemma view_limits_nonempty verts :
  verts <> [] ->
  exists xl xh yl yh zl zh,
    view_limits verts = Ok ((xl, xh), (yl, yh), (zl, zh)) /\
    xh - xl = yh - yl /\ yh - yl = zh - zl /\ 0 <= xh - xl /\
    forall x y z, In (x, y, z) verts ->
      xl <= x <= xh /\ yl <= y <= yh /\ zl <= z <= zh.
Proof.
  intros Hne.
  destruct (np_max_min_nonempty _ (column_nonempty 0 _ Hne))
    as (M0 & m0 & EM0 & Em0 & B0).
  destruct (np_max_min_nonempty _ (column_nonempty 1 _ Hne))
    as (M1 & m1 & EM1 & Em1 & B1).
  destruct (np_max_min_nonempty _ (column_nonempty 2 _ Hne))
    as (M2 & m2 & EM2 & Em2 & B2).
  set (r := Rmax (Rmax (M0 - m0) (M1 - m1)) (M2 - m2) / 2).
  assert (EV : view_limits verts =
               Ok (((M0 + m0) * / 2 - r, (M0 + m0) * / 2 + r),
                   ((M1 + m1) * / 2 - r, (M1 + m1) * / 2 + r),
                   ((M2 + m2) * / 2 - r, (M2 + m2) * / 2 + r))).
  { unfold view_limits, max_range, mid, extent.
    rewrite EM0, Em0, EM1, Em1, EM2, Em2; reflexivity. }
  do 6 eexists; split; [exact EV|].
  assert (R0 : (M0 - m0) / 2 <= r).
  { unfold r; pose proof (Rmax_l (M0 - m0) (M1 - m1));
      pose proof (Rmax_l (Rmax (M0 - m0) (M1 - m1)) (M2 - m2)); lra. }
  assert (R1 : (M1 - m1) / 2 <= r).
  { unfold r; pose proof (Rmax_r (M0 - m0) (M1 - m1));
      pose proof (Rmax_l (Rmax (M0 - m0) (M1 - m1)) (M2 - m2)); lra. }
  assert (R2 : (M2 - m2) / 2 <= r).
  { unfold r; pose proof (Rmax_r (Rmax (M0 - m0) (M1 - m1)) (M2 - m2)); lra. }
  destruct verts as [|[[x0 y0] z0] vs]; [congruence|].
  pose proof (B0 _ (column_in 0 x0 y0 z0 ((x0, y0, z0) :: vs)
                      (in_eq _ _))) as H0.
  cbv beta iota in H0.
  split; [lra|split; [lra|split; [lra|]]].
  intros x y z Hin.
  pose proof (B0 _ (column_in 0 x y z _ Hin)) as Hx.
  pose proof (B1 _ (column_in 1 x y z _ Hin)) as Hy.
  pose proof (B2 _ (column_in 2 x y z _ Hin)) as Hz.
  cbv beta iota in Hx, Hy, Hz.
  repeat split; lra.
Qed.

End ViewLimits.

(** X10: for a non-empty vertex array, the view limits of lines 127-144
    are defined (no reduction is taken of an empty array), span the same
    length on the three axes (a cube) and contain every vertex; an empty
    array makes the first reduction raise. *)
Theorem view_limits_contain_mesh verts :
  verts <> [] ->
  (exists xl xh yl yh zl zh,
     view_limits verts = Ok ((xl, xh), (yl, yh), (zl, zh)) /\
     xh - xl = yh - yl /\ yh - yl = zh - zl /\ 0 <= xh - xl /\
     forall x y z, In (x, y, z) verts ->
       xl <= x <= xh /\ yl <= y <= yh /\ zl <= z <= zh) /\
  view_limits [] =
    Raise (ValueError
      "zero-size array to reduction operation maximum which has no identity").
Proof.
  intros Hne; split; [now apply view_limits_nonempty|reflexivity].
Qed.

Lemma view_limits_contain_mesh_witness :
  (exists xl xh yl yh zl zh,
     view_limits [(0, 1, 2); (4, 1, 0)] = Ok ((xl, xh), (yl, yh), (zl, zh)) /\
     xh - xl = yh - yl /\ yh - yl = zh - zl /\ 0 <= xh - xl /\
     forall x y z, In (x, y, z) [(0, 1, 2); (4, 1, 0)] ->
       xl <= x <= xh /\ yl <= y <= yh /\ zl <= z <= zh) /\
  view_limits [] =
    Raise (ValueError
      "zero-size array to reduction operation maximum which has no identity").
Proof.
  apply (view_limits_contain_mesh [(0, 1, 2); (4, 1, 0)]).
  discriminate.
Defined.

(** X11: the view limits follow the coordinate mapping: translating every
    vertex by lo, as [generate_surface] does before it returns, shifts the
    limits on each axis by lo and leaves their length unchanged; an empty
    mesh raises the same error before and after. *)
Theorem view_limits_translate lo verts :
  view_limits (map (translate lo) verts) =
  match view_limits verts with
  | Ok ((xl, xh), (yl, yh), (zl, zh)) =>
      Ok ((xl + lo, xh + lo), (yl + lo, yh + lo), (zl + lo, zh + lo))
  | Raise e => Raise e
  end.
Proof.
  unfold view_limits, max_range, mid, extent.
  rewrite !column_translate, !np_max_translate, !np_min_translate.
  destruct verts as [|[[x0 y0] z0] vs]; [reflexivity|].
  unfold np_max, np_min, column; cbn [map rbind fold_left].
  set (M0 := fold_left Rmax _ x0); set (m0 := fold_left Rmin _ x0).
  set (M1 := fold_left Rmax _ y0); set (m1 := fold_left Rmin _ y0).
  set (M2 := fold_left Rmax _ z0); set (m2 := fold_left Rmin _ z0).
  replace (M0 + lo - (m0 + lo)) with (M0 - m0) by ring.
  replace (M1 + lo - (m1 + lo)) with (M1 - m1) by ring.
  replace (M2 + lo - (m2 + lo)) with (M2 - m2) by ring.
  assert (E : forall M m r,
            ((M + lo + (m + lo)) * / 2 - r, (M + lo + (m + lo)) * / 2 + r)
            = ((M + m) * / 2 - r + lo, (M + m) * / 2 + r + lo))
    by (intros; apply f_equal2; field).
  now rewrite !E.
Qed.

(* ================================================================== *)
(** ** main: what the user sees *)
(* ================================================================== *)

Section MainFacts.

Context {builtins : Builtins}.
Variable tri_table : nat -> list (nat * nat * nat).
Variable plot : Mesh -> M unit.
Variable show : M unit.

Lemma read_resolution_ok line con :
  let resolution := str_strip line in
  let accepted := negb (str_truthy resolution)
                  || match int_of_str resolution with
                     | Some _ => true
                     | None => false
                     end in
  let r := (if str_truthy resolution then
              match int_of_str resolution with
              | Some n => Z.max 30 (Z.min 100 n)
              | None => 50
              end
            else 50)%Z in
  read_resolution line con =
    (con ++ (nl ++ "Enter grid resolution (30-100, default=50): ")%string
         :: (if accepted then [] else ["Using default resolution: 50"%string]),
     Ok r) /\
  (30 <= r <= 100)%Z.
Proof.
  cbv zeta; unfold read_resolution, bind, print, lift, ret, int.
  destruct (str_truthy (str_strip line)); cbn [negb orb].
  - destruct (int_of_str (str_strip line)) as [n|].
    + split; [reflexivity|lia].
    + rewrite <- app_assoc; split; [reflexivity|lia].
  - split; [reflexivity|lia].
Qed.

Lemma main_unfold line con :
  main tri_table plot show line con =
  match read_resolution line (con ++ banner) with
  | (con', Ok r) => main_with tri_table plot show r con'
  | (con', Raise e) => (con', Raise e)
  end.
Proof.
  unfold main, bind at 1 2 3 4 5 6 7, print; cbn [fst snd].
  unfold bind at 1.
  replace (((((((con ++ [str_repeat "=" 60]) ++ _) ++ _) ++ _) ++ _) ++ _) ++ _)
    with (con ++ banner) by (unfold banner; now rewrite <- !app_assoc).
  reflexivity.
Qed.

Lemma main_with_outcome r con :
  exists con' code,
    main_with tri_table plot show r con = (con', Ok code) /\
    ((code = 0%Z /\
      exists pre, con' = pre ++ [(nl ++ "Visualization complete!")%string])
     \/ (code = 1%Z /\ exists pre e, con' = pre ++ failure_lines e)) /\
    forall con2 e,
      generate_surface tri_table (Z.to_nat r) (- PI, PI) 0
        (con ++ resolution_lines r) = (con2, Raise e) ->
      code = 1%Z /\ con' = con2 ++ failure_lines e.
Proof.
  unfold main_with, failure_lines, resolution_lines.
  unfold bind at 1 2, print at 1 2; cbn [fst snd].
  rewrite <- app_assoc; cbn [app].
  set (con0 := con ++ _).
  unfold bind at 1.
  destruct (generate_surface tri_table (Z.to_nat r) (- PI, PI) 0 con0)
    as [con2 [mesh|e]] eqn:G.
  - unfold bind at 1 2 3 4, print at 1 2 3 4; cbn [fst snd].
    unfold bind at 1.
    destruct (plot mesh _) as [con3 [u|e]].
    + unfold bind at 1 2 3 4 5 6 7 8, print at 1 2 3 4 5 6 7 8; cbn [fst snd].
      destruct (show _) as [con4 [u'|e]].
      * unfold bind, print, ret.
        eexists _, _; split; [reflexivity|split].
        -- left; split; [reflexivity|eexists; reflexivity].
        -- intros ? ? [=].
      * unfold bind, print, ret.
        eexists _, _; split; [reflexivity|split].
        -- right; split; [reflexivity|].
           exists con4, e; now rewrite <- app_assoc.
        -- intros ? ? [=].
    + unfold bind, print, ret.
      eexists _, _; split; [reflexivity|split].
      * right; split; [reflexivity|].
        exists con3, e; now rewrite <- app_assoc.
      * intros ? ? [=].
  - unfold bind, print, ret.
    eexists _, _; split; [reflexivity|split].
    + right; split; [reflexivity|].
      exists con2, e; now rewrite <- app_assoc.
    + intros ? ? [= <- <-]; split; [reflexivity|now rewrite <- app_assoc].
Qed.

End MainFacts.

(** X12: [main] never lets an exception of the generation, of the plotting
    or of the display escape: for every line it returns exit code 0 after
    printing the completion line, or exit code 1 after printing the two
    failure lines.  When the generation itself fails, the error reported is
    the extractor's "No surface found": with a resolution in [30, 100], the
    bounds (-pi, pi) and level 0, no other failure of the generation is
    possible. *)
Theorem main_exit_code (builtins : Builtins) tri_table
  (plot : Mesh -> M unit) (show : M unit) line con :
  exists con' code,
    main tri_table plot show line con = (con', Ok code) /\
    ((code = 0%Z /\
      exists pre, con' = pre ++ [(nl ++ "Visualization complete!")%string])
     \/ (code = 1%Z /\ exists pre e, con' = pre ++ failure_lines e)) /\
    forall r con1 con2 e,
      read_resolution line (con ++ banner) = (con1, Ok r) ->
      generate_surface tri_table (Z.to_nat r) (- PI, PI) 0
        (con1 ++ resolution_lines r) = (con2, Raise e) ->
      e = RuntimeError "No surface found at the given iso value." /\
      code = 1%Z /\ con' = con2 ++ failure_lines e.
Proof.
  rewrite main_unfold.
  destruct (read_resolution_ok line (con ++ banner)) as [E B].
  cbv zeta in E, B; rewrite E.
  match goal with
  | |- context [main_with _ _ _ ?r ?c] =>
      destruct (main_with_outcome tri_table plot show r c)
        as (con' & code & Em & Hd & Hg)
  end.
  exists con', code; split; [exact Em|split; [exact Hd|]].
  intros r con1 con2 e [= <- <-] Hgen.
  split; [|now apply Hg].
  match type of Hgen with
  | generate_surface _ ?n _ _ ?c = _ =>
      destruct (symmetric_bounds_outcome tri_table PI n c ltac:(lia))
        as [_ [[mesh Hs]|Hs]]; rewrite Hgen in Hs; cbn [snd] in Hs
  end; congruence.
Qed.

(** X13: [read_resolution] always prints the prompt and always returns a
    resolution; it prints the notice "Using default resolution: 50" exactly
    when the stripped line is not empty and [int] rejects it.  A blank line
    takes the default silently. *)
Theorem resolution_prompt_and_notice (builtins : Builtins) line con :
  exists r,
    read_resolution line con =
      (con ++ (nl ++ "Enter grid resolution (30-100, default=50): ")%string
           :: (if negb (str_truthy (str_strip line))
                  || match int_of_str (str_strip line) with
                     | Some _ => true
                     | None => false
                     end
               then [] else ["Using default resolution: 50"%string]),
       Ok r) /\
    (30 <= r <= 100)%Z.
Proof.
  destruct (read_resolution_ok line con) as [E B].
  eexists; split; [exact E|exact B].
Qed.

(* ================================================================== *)
(** ** The lattice, and bounds of no extent *)
(* ================================================================== *)

Section LatticeFacts.

Variable tri_table : nat -> list (nat * nat * nat).

Lemma lattice_degenerate b n i : lattice b b n i = b.
Proof. unfold lattice, Rdiv; ring. Qed.

Lemma sample_constant b n i j k :
  (2 <= n)%nat -> (i < n)%nat -> (j < n)%nat -> (k < n)%nat ->
  vol_get (sample_volume n (b, b)) i j k = field b b b.
Proof.
  intros Hn Hi Hj Hk; rewrite sample_volume_entry by assumption.
  unfold axis; cbn [fst snd]; rewrite !linspace_nth by lia.
  now rewrite !lattice_degenerate.
Qed.

Lemma smoothed_constant b n i j k :
  (2 <= n)%nat -> (i < n)%nat -> (j < n)%nat -> (k < n)%nat ->
  vol_get (smoothed_volume n (b, b)) i j k = field b b b.
Proof.
  intros Hn Hi Hj Hk.
  assert (B : vol_bounded n n n (field b b b) (field b b b)
                (sample_volume n (b, b))).
  { intros i' j' k' Hi' Hj' Hk'; rewrite sample_constant by assumption; lra. }
  apply (smoothed_volume_bounded n (b, b) _ _ ltac:(lia)) in B.
  specialize (B i j k Hi Hj Hk); lra.
Qed.

Lemma cubes_in n0 n1 n2 i j k :
  In (i, j, k) (cubes n0 n1 n2) ->
  (i < n0 - 1)%nat /\ (j < n1 - 1)%nat /\ (k < n2 - 1)%nat.
Proof.
  unfold cubes; intros H.
  apply in_flat_map in H as (i' & Hi & H).
  apply in_flat_map in H as (j' & Hj & H).
  apply in_map_iff in H as (k' & [= <- <- <-] & Hk).
  apply in_seq in Hi, Hj, Hk; lia.
Qed.

Lemma corner_offset_small c :
  let '(di, dj, dk) := corner_offset c in
  (di <= 1)%nat /\ (dj <= 1)%nat /\ (dk <= 1)%nat.
Proof.
  do 8 (destruct c as [|c]; [simpl; lia|]); simpl; lia.
Qed.

Lemma flat_map_all_nil {A B} (f : A -> list B) l :
  (forall x, In x l -> f x = []) -> flat_map f l = [].
Proof.
  induction l as [|x l IH]; intros H; simpl; [reflexivity|].
  rewrite H by (now left). apply IH; intros; apply H; now right.
Qed.

Lemma constant_corner_value b n i j k c :
  (i < n - 1)%nat -> (j < n - 1)%nat -> (k < n - 1)%nat ->
  corner_value (smoothed_volume n (b, b)) (i, j, k) c = field b b b.
Proof.
  intros Hi Hj Hk; unfold corner_value, corner_index.
  pose proof (corner_offset_small c) as Hc.
  destruct (corner_offset c) as [[di dj] dk].
  apply smoothed_constant; lia.
Qed.

(** In a constant volume no cube is cut at the level of the constant. *)
Lemma constant_volume_extract b n spacing :
  (2 <= n)%nat ->
  extract tri_table (smoothed_volume n (b, b)) (field b b b) spacing = ([], []).
Proof.
  intros Hn; unfold extract.
  rewrite (has_shape_shape n n n) by (try apply smoothed_volume_shape; lia).
  rewrite flat_map_all_nil; [reflexivity|].
  intros [[i j] k] Hin; apply cubes_in in Hin as (Hi & Hj & Hk).
  unfold cube_triangles.
  replace (cube_config _ _ _) with 0%nat; [reflexivity|].
  unfold cube_config; cbn [seq fold_right].
  rewrite !constant_corner_value by assumption.
  rewrite inside_false by lra; reflexivity.
Qed.

(** On bounds of no extent every run fails. *)
Lemma degenerate_bounds_outcome b n iso con :
  (2 <= n)%nat ->
  generate_surface tri_table n (b, b) iso con =
  (con ++ progress n,
   if Req_dec_T iso (field b b b)
   then Raise (RuntimeError "No surface found at the given iso value.")
   else Raise (ValueError "Surface level must be within volume data range.")).
Proof.
  intros Hn.
  pose proof (smoothed_volume_shape n (b, b) ltac:(lia)) as Hs.
  pose proof (amin_le_entry n n n _ 0 0 0 Hs ltac:(lia) ltac:(lia) ltac:(lia))
    as [L U].
  rewrite smoothed_constant in L, U by lia.
  assert (B : vol_bounded n n n (field b b b) (field b b b)
                (smoothed_volume n (b, b)))
    by (intros i j k Hi Hj Hk; rewrite smoothed_constant by assumption; lra).
  apply (vol_bounded_range n n n) in B as [L' U']; try (assumption || lia).
  destruct (Req_dec_T iso (field b b b)) as [->|Hne].
  - rewrite generate_surface_stages, axis_spacing_ok by exact Hn.
    unfold marching_cubes.
    rewrite (has_shape_shape n n n) by (assumption || lia).
    replace (n <? 2)%nat with false by (symmetry; apply Nat.ltb_ge; lia).
    cbn [orb].
    destruct (Rlt_dec _ _); [lra|].
    destruct (Rlt_dec _ _); [lra|].
    now rewrite constant_volume_extract.
  - apply generate_surface_level_check; [exact Hn|].
    destruct (Rlt_dec iso (field b b b)); [left|right]; lra.
Qed.

End LatticeFacts.

(** X14: for bounds lo < hi and a resolution of at least 2, the lattice
    coordinates increase strictly with the index and stay within
    [lo, hi], and the spacing handed to the extractor is positive. *)
Theorem lattice_increasing lo hi resolution i j :
  (2 <= resolution)%nat -> lo < hi -> (i < j)%nat -> (j < resolution)%nat ->
  let x := axis (lo, hi) resolution in
  lo <= nth i x 0 /\ nth i x 0 < nth j x 0 /\ nth j x 0 <= hi /\
  exists h, axis_spacing resolution (lo, hi) = Ok (h, h, h) /\ 0 < h.
Proof.
  intros Hn Hb Hij Hj; cbv zeta.
  unfold axis; cbn [fst snd]; rewrite !linspace_nth by lia.
  unfold lattice.
  assert (Hd : 0 < INR (resolution - 1)) by (apply lt_0_INR; lia).
  assert (Hh : 0 < (hi - lo) / INR (resolution - 1))
    by (apply Rdiv_lt_0_compat; lra).
  pose proof (pos_INR i) as Hi0.
  pose proof (lt_INR i j Hij) as Hlt.
  pose proof (le_INR j (resolution - 1) ltac:(lia)) as Hle.
  assert (Hlast : lo + INR (resolution - 1) * ((hi - lo) / INR (resolution - 1))
                  = hi) by (field; lra).
  repeat split; try nra.
  exists ((hi - lo) / INR (resolution - 1)); split; [|exact Hh].
  now apply axis_spacing_ok.
Qed.

Lemma lattice_increasing_witness :
  let x := axis (- PI, PI) 30 in
  - PI <= nth 0 x 0 /\ nth 0 x 0 < nth 29 x 0 /\ nth 29 x 0 <= PI /\
  exists h, axis_spacing 30 (- PI, PI) = Ok (h, h, h) /\ 0 < h.
Proof.
  apply (lattice_increasing (- PI) PI 30 0 29); try lia.
  pose proof PI_RGT_0; lra.
Defined.

(** X15: on bounds of no extent, lo = hi = b, with a resolution of at least
    2, the sampled and the smoothed volume are constant, equal to the field
    at (b, b, b), and no level yields a mesh: the level of the constant
    finds no surface, every other level fails the level check. *)
Theorem degenerate_bounds_never_succeed tri_table b resolution iso con :
  (2 <= resolution)%nat ->
  (forall i j k, (i < resolution)%nat -> (j < resolution)%nat ->
                 (k < resolution)%nat ->
     vol_get (sample_volume resolution (b, b)) i j k = field b b b /\
     vol_get (smoothed_volume resolution (b, b)) i j k = field b b b) /\
  generate_surface tri_table resolution (b, b) iso con =
  (con ++ progress resolution,
   if Req_dec_T iso (field b b b)
   then Raise (RuntimeError "No surface found at the given iso value.")
   else Raise (ValueError "Surface level must be within volume data range.")).
Proof.
  intros Hn; split; [|now apply degenerate_bounds_outcome].
  intros i j k Hi Hj Hk; split;
    [now apply sample_constant|now apply smoothed_constant].
Qed.

Lemma degenerate_bounds_never_succeed_witness :
  (forall i j k, (i < 30)%nat -> (j < 30)%nat -> (k < 30)%nat ->
     vol_get (sample_volume 30 (0, 0)) i j k = field 0 0 0 /\
     vol_get (smoothed_volume 30 (0, 0)) i j k = field 0 0 0) /\
  generate_surface table_rows 30 (0, 0) 0 [] =
  ([] ++ progress 30,
   if Req_dec_T 0 (field 0 0 0)
   then Raise (RuntimeError "No surface found at the given iso value.")
   else Raise (ValueError "Surface level must be within volume data range.")).
Proof.
  apply (degenerate_bounds_never_succeed table_rows 0 30 0 []); lia.
Defined.

(** X16: the view limits can be computed on what a run returns: every
    mesh [generate_surface] returns has a vertex, so no reduction of lines
    127-144 is taken of an empty array, and every returned vertex lies
    within the limits. *)
Theorem limits_of_generated_mesh tri_table resolution bounds iso con con'
  verts faces :
  generate_surface tri_table resolution bounds iso con
    = (con', Ok (verts, faces)) ->
  verts <> [] /\
  exists xl xh yl yh zl zh,
    view_limits verts = Ok ((xl, xh), (yl, yh), (zl, zh)) /\
    forall x y z, In (x, y, z) verts ->
      xl <= x <= xh /\ yl <= y <= yh /\ zl <= z <= zh.
Proof.
  intros Hrun.
  apply generate_surface_ok in Hrun as (spacing & verts0 & _ & Hm & -> & _).
  apply marching_cubes_nonempty in Hm as [Hne _].
  assert (Hne' : map (translate (fst bounds)) verts0 <> [])
    by (destruct verts0; [congruence|discriminate]).
  split; [exact Hne'|].
  destruct (view_limits_nonempty _ Hne')
    as (xl & xh & yl & yh & zl & zh & EV & _ & _ & _ & Hin).
  exists xl, xh, yl, yh, zl, zh; split; [exact EV|exact Hin].
Qed.

Lemma limits_of_generated_mesh_witness :
  exists verts faces,
    generate_surface table_rows 2 (-1, 1) 0 []
      = ([] ++ progress 2, Ok (verts, faces)) /\
    verts <> [] /\
    exists xl xh yl yh zl zh,
      view_limits verts = Ok ((xl, xh), (yl, yh), (zl, zh)) /\
      forall x y z, In (x, y, z) verts ->
        xl <= x <= xh /\ yl <= y <= yh /\ zl <= z <= zh.
Proof.
  destruct (generate_surface_single_cube table_rows []
              ltac:(discriminate)) as (verts & faces & Hrun & _).
  exists verts, faces; split; [exact Hrun|].
  exact (limits_of_generated_mesh table_rows 2 (-1, 1) 0 [] _ verts faces
           Hrun).
Defined.
